(** * json-px: JSON Pointer (RFC 6901) and JSON Patch (RFC 6902)

    A shallow embedding of [helpers.ts], [pointer.ts] and [patch.ts].

    JavaScript values are modelled with an explicit store: primitives are
    immediate, arrays and objects live in heap cells and are denoted by
    references, so that reference identity ([===] on objects), aliasing and
    in-place updates ([push], [splice], property assignment, [delete]) are
    visible in the model.  TypeScript annotations are erased at run time, so
    every function takes plain run-time values: [evaluate] is declared as
    [(object, pointer)] and is modelled on two values, whichever way round
    a caller passes them.

    Strings are sequences of characters; the library handles them one
    character at a time and only ever looks for [/], [~], [-] and the
    digits. *)

From Stdlib Require Import String Ascii List NArith Bool Lia.
From Stdlib Require Import PrimFloat.
From stdpp Require Import base list.

Set Default Proof Using "Type".

(** ** Strings: the fragment of the [String] API used by the library *)

Module Str.

(** [s.split(sep)] for a one-character separator: never returns the empty
    list, [''.split('/')] is [['']]. *)
Fixpoint split (sep : ascii) (s : string) : list string :=
  match s with
  | EmptyString => [EmptyString]
  | String c rest =>
      if Ascii.eqb c sep then EmptyString :: split sep rest
      else match split sep rest with
           | [] => [String c EmptyString]
           | piece :: more => String c piece :: more
           end
  end.

(** [xs.join(sep)] *)
Fixpoint join (sep : string) (xs : list string) : string :=
  match xs with
  | [] => EmptyString
  | [x] => x
  | x :: rest => String.append x (String.append sep (join sep rest))
  end.

(** [s.replace(/c/g, rep)] for a literal one-character pattern. *)
Fixpoint replaceAll1 (c : ascii) (rep : string) (s : string) : string :=
  match s with
  | EmptyString => EmptyString
  | String a rest =>
      if Ascii.eqb a c then String.append rep (replaceAll1 c rep rest)
      else String a (replaceAll1 c rep rest)
  end.

(** [s.replace(/c1c2/g, rep)] for a literal two-character pattern: matches
    are found left to right and do not overlap. *)
Fixpoint replaceAll2 (c1 c2 : ascii) (rep : string) (s : string) : string :=
  match s with
  | EmptyString => EmptyString
  | String a rest =>
      match rest with
      | EmptyString => String a EmptyString
      | String b rest' =>
          if Ascii.eqb a c1 && Ascii.eqb b c2
          then String.append rep (replaceAll2 c1 c2 rep rest')
          else String a (replaceAll2 c1 c2 rep rest)
      end
  end.

(** [s.includes(c)] for one character. *)
Fixpoint contains (c : ascii) (s : string) : bool :=
  match s with
  | EmptyString => false
  | String a rest => Ascii.eqb a c || contains c rest
  end.

Definition isDigit (c : ascii) : bool :=
  let n := N_of_ascii c in (48 <=? n)%N && (n <=? 57)%N.

Fixpoint allDigits (s : string) : bool :=
  match s with
  | EmptyString => true
  | String c rest => isDigit c && allDigits rest
  end.

(** [/^\d+$/.test(s)]: one or more ASCII digits and nothing else. *)
Definition isUnsignedInteger (s : string) : bool :=
  match s with
  | EmptyString => false
  | _ => allDigits s
  end.

Fixpoint parseDigits (acc : N) (s : string) : N :=
  match s with
  | EmptyString => acc
  | String c rest => parseDigits (10 * acc + (N_of_ascii c - 48))%N rest
  end.

(** The mathematical integer that a string of decimal digits denotes. *)
Definition digitsValue (s : string) : N := parseDigits 0%N s.

(** The double of a positive number of at most 53 bits (or of 2^53): every
    step is exact. *)
Fixpoint floatOfPositive (p : positive) : float :=
  match p with
  | xH => 1%float
  | xO q => (2 * floatOfPositive q)%float
  | xI q => (2 * floatOfPositive q + 1)%float
  end.

(** [f * 2^e]; doubling is exact until it overflows to infinity. *)
Fixpoint timesPow2 (f : float) (e : nat) : float :=
  match e with
  | 0 => f
  | S e' => timesPow2 (f * 2)%float e'
  end.

(** The Number value of a natural number: the nearest double, ties to the
    even significand, infinity from 2^1024 - 2^970 on.  The number is cut
    to its 53 leading bits [m], the bits cut off decide the rounding. *)
Definition toDouble (n : N) : float :=
  let e := (N.size n - 53)%N in
  let m := N.shiftr n e in
  let r := (n - N.shiftl m e)%N in
  let half := N.shiftl 1 (e - 1) in
  let m' :=
    if (0 <? e)%N && ((half <? r)%N || ((r =? half)%N && N.odd m))
    then (m + 1)%N else m in
  timesPow2 (match m' with N0 => 0%float | Npos p => floatOfPositive p end) (N.to_nat e).

(** [parseInt(s, 10)] and [Number(s)] on a string accepted by
    [isUnsignedInteger]: the double nearest to the integer the digits
    denote. *)
Definition parseInt (s : string) : float := toDouble (digitsValue s).

End Str.

(** ** helpers.ts, string part *)

(** [str.replace(/~1/g, '/').replace(/~0/g, '~')] *)
Definition unescapeToken (str : string) : string :=
  Str.replaceAll2 "~" "0" "~" (Str.replaceAll2 "~" "1" "/" str).

(** ** pointer.ts, string part *)

(** [str.replace(/~/g, '~0').replace(/\//g, '~1')] *)
Definition escapeToken (str : string) : string :=
  Str.replaceAll1 "/" "~1" (Str.replaceAll1 "~" "~0" str).

(** The image of one character under [escapeToken]. *)
Definition escapeChar (c : ascii) : string :=
  if Ascii.eqb c "~" then "~0"%string
  else if Ascii.eqb c "/" then "~1"%string
  else String c EmptyString.

(** ** Run-time values and the store *)

Definition loc := nat.

(** A JavaScript value of the JSON domain (plus [undefined]): primitives are
    immediate, arrays and objects are references into the store.  Numbers
    are IEEE 754 doubles. *)
Inductive JSValue : Type :=
| VUndefined
| VNull
| VBool (b : bool)
| VNum (n : float)
| VStr (s : string)
| VRef (l : loc).

(** A store cell: an array with its elements in index order, or a plain
    object with its own properties in insertion order. *)
Inductive Cell : Type :=
| CArr (elems : list JSValue)
| CObj (props : list (string * JSValue)).

Abbreviation heap := (list Cell).

(** Errors, one constructor per [throw] site; the comment gives the message
    of the source. *)
Inductive Error : Type :=
| TypeError                           (* raised by the engine: [x.split is not a function], ... *)
| RangeError                          (* raised by the engine: call stack exhausted *)
| RootNotObject                       (* The root object is not a valid JSON object. *)
| InvalidPointer (pointer : string)   (* Invalid JSON Pointer: <pointer> *)
| UnresolvedPointer (pointer : string) (* Unable to resolve pointer: <pointer> *)
| InvalidArrayReference               (* Invalid reference: '-' points to a non-existent array element. *)
| InvalidArrayIndex (token : string)  (* Invalid array index: <token> *)
| ArrayIndexOutOfBounds (index : float) (* Array index out of bounds: <index> *)
| KeyNotFound (token : string)        (* Key not found: <token> *)
| UnresolvableToken (token : string)  (* Cannot resolve token '<token>' in non-object, non-array value. *)
| InvalidLastToken (path : string)    (* Invalid JSON pointer: <path> *)
| InvalidPointerOperation             (* Invalid pointer operation on target. *)
| IndexTooLarge (token : string) (len : nat)
                                      (* Pointer index: <token> must not be greater than target array length: <len>. *)
| InvalidAddOperation (path : string) (* Invalid add operation for pointer: <path> *)
| InvalidRemovePointer (path : string) (* Invalid pointer for remove operation: <path> *)
| RemoveNonArray                      (* Cannot remove array elements at non-Array target. *)
| RemoveNonExistentElement            (* Attempting to index non-existent element at target array. *)
| RemoveUndefinedMember               (* Attempting to access undefined value at target object. *)
| InvalidRemoveOperation (path : string) (* Invalid remove operation for pointer: <path> *)
| TestMismatch.                       (* Test operation failed due to value mismatch. *)

Inductive Result (A : Type) : Type :=
| Ok (a : A)
| Err (e : Error).
Arguments Ok {A} a.
Arguments Err {A} e.

Definition bindR {A B} (m : Result A) (k : A -> Result B) : Result B :=
  match m with
  | Ok a => k a
  | Err e => Err e
  end.

(** [typeof] *)
Inductive JSType : Type := TUndefined | TObject | TBoolean | TNumber | TString.

Definition typeof (v : JSValue) : JSType :=
  match v with
  | VUndefined => TUndefined
  | VNull | VRef _ => TObject
  | VBool _ => TBoolean
  | VNum _ => TNumber
  | VStr _ => TString
  end.

Definition JSType_eqb (s t : JSType) : bool :=
  match s, t with
  | TUndefined, TUndefined | TObject, TObject | TBoolean, TBoolean
  | TNumber, TNumber | TString, TString => true
  | _, _ => false
  end.

(** [a === b]: primitives by value (IEEE comparison on numbers), arrays and
    objects by reference. *)
Definition strictEq (a b : JSValue) : bool :=
  match a, b with
  | VUndefined, VUndefined => true
  | VNull, VNull => true
  | VBool x, VBool y => Bool.eqb x y
  | VNum x, VNum y => PrimFloat.eqb x y
  | VStr x, VStr y => String.eqb x y
  | VRef x, VRef y => Nat.eqb x y
  | _, _ => false
  end.

(** Truthiness, as tested by [!x] and [if (x)]. *)
Definition truthy (v : JSValue) : bool :=
  match v with
  | VUndefined | VNull => false
  | VBool b => b
  | VNum n => negb (PrimFloat.eqb n 0%float) && negb (PrimFloat.is_nan n)
  | VStr s => negb (String.eqb s EmptyString)
  | VRef _ => true
  end.

(** [Number.isNaN] *)
Definition isNaN (v : JSValue) : bool :=
  match v with
  | VNum n => PrimFloat.is_nan n
  | _ => false
  end.

Definition arrayOf (h : heap) (v : JSValue) : option (list JSValue) :=
  match v with
  | VRef l => match h !! l with Some (CArr elems) => Some elems | _ => None end
  | _ => None
  end.

Definition propsOf (h : heap) (v : JSValue) : list (string * JSValue) :=
  match v with
  | VRef l => match h !! l with Some (CObj props) => props | _ => [] end
  | _ => []
  end.

(** [Array.isArray] *)
Definition isArray (h : heap) (v : JSValue) : bool :=
  match arrayOf h v with Some _ => true | None => false end.

(** [v.length] of an array *)
Definition arrayLength (h : heap) (v : JSValue) : nat :=
  match arrayOf h v with Some elems => length elems | None => 0 end.

(** [v[index]] on an array: [undefined] past the end. *)
Definition getIndex (h : heap) (v : JSValue) (index : N) : JSValue :=
  match arrayOf h v with
  | Some elems => default VUndefined (elems !! N.to_nat index)
  | None => VUndefined
  end.

Fixpoint lookupProp (key : string) (props : list (string * JSValue)) : option JSValue :=
  match props with
  | [] => None
  | (k, v) :: rest => if String.eqb k key then Some v else lookupProp key rest
  end.

(** [Object.hasOwn(v, key)] *)
Definition hasOwn (h : heap) (v : JSValue) (key : string) : bool :=
  match lookupProp key (propsOf h v) with Some _ => true | None => false end.

(** [v[key]] on a plain object of the JSON domain: the own property, or
    [undefined].  (Members inherited from [Object.prototype] are not JSON
    values and are left out of the model.) *)
Definition getProp (h : heap) (v : JSValue) (key : string) : JSValue :=
  default VUndefined (lookupProp key (propsOf h v)).

(** [Object.keys] *)
Definition keys (h : heap) (v : JSValue) : list string := map fst (propsOf h v).

(** ** helpers.ts *)

(** [typeof t === 'object' && !Array.isArray(t) && t !== null] *)
Definition isObject (h : heap) (t : JSValue) : bool :=
  JSType_eqb (typeof t) TObject && negb (isArray h t) && negb (strictEq t VNull).

Record PathInfo : Type := {
  pointer : string;
  paths : list string;
  parent : string;
  key : string
}.

(** [pointer.split('/').map(unescapeToken)].  The argument is whatever value
    the caller passes: [split] exists on strings only, on any other value
    the call raises a [TypeError]. *)
Definition interpretPath (ptr : JSValue) : Result PathInfo :=
  match ptr with
  | VStr p =>
      let ps := map unescapeToken (Str.split "/" p) in
      Ok {| pointer := p;
            paths := ps;
            parent := if 2 <=? length ps then nth (length ps - 2) ps EmptyString else EmptyString;
            key := if 1 <? length ps then nth (length ps - 1) ps EmptyString else EmptyString |}
  | _ => Err TypeError
  end.

(** [xs.every(f)] where [f] may throw: stops at the first [false]. *)
Fixpoint every {A} (f : A -> Result bool) (xs : list A) : Result bool :=
  match xs with
  | [] => Ok true
  | x :: rest =>
      match f x with
      | Ok true => every f rest
      | Ok false => Ok false
      | Err e => Err e
      end
  end.

(** [isEqual], with the recursion depth bounded by [fuel]. *)
Fixpoint isEqualFuel (fuel : nat) (h : heap) (a b : JSValue) : Result bool :=
  match fuel with
  | 0 => Err RangeError
  | S fuel' =>
      if strictEq a b then Ok true
      else if isNaN a && isNaN b then Ok true
      else if negb (JSType_eqb (typeof a) (typeof b)) then Ok false
      else match arrayOf h a with
           | Some xs =>
               match arrayOf h b with
               | None => Ok false
               | Some ys =>
                   if negb (length xs =? length ys) then Ok false
                   else every (fun '(idx, val) =>
                                 isEqualFuel fuel' h val (default VUndefined (ys !! idx)))
                              (imap pair xs)
               end
           | None =>
               if isObject h a && isObject h b then
                 let aKeys := keys h a in
                 let bKeys := keys h b in
                 if negb (length aKeys =? length bKeys) then Ok false
                 else every (fun key =>
                               if hasOwn h b key
                               then isEqualFuel fuel' h (getProp h a key) (getProp h b key)
                               else Ok false)
                            aKeys
               else Ok false
           end
  end.

(** [isEqual(a, b)].  On the acyclic values of the JSON domain the nesting
    depth is at most the number of cells, so the bound is never reached; a
    cyclic value exhausts the call stack. *)
Definition isEqual (h : heap) (a b : JSValue) : Result bool :=
  isEqualFuel (S (length h)) h a b.

(** ** pointer.ts *)

(** [xs.reduce(f, init)] where [f] may throw. *)
Fixpoint reduce {A B} (f : B -> A -> Result B) (xs : list A) (init : B) : Result B :=
  match xs with
  | [] => Ok init
  | x :: rest =>
      match f init x with
      | Ok acc => reduce f rest acc
      | Err e => Err e
      end
  end.

(** The callback of the [reduce] in [evaluate].  The index is the double
    [parseInt] returns, and that double is what the out-of-bounds error
    reports.  The test [index >= acc.length] is decided on the integer the
    digits denote: rounding to a double is monotone and a length is below
    2^32, so both comparisons agree, and an index below the length is
    exact. *)
Definition evaluateStep (h : heap) (ptr : string) (acc : JSValue) (token : string)
  : Result JSValue :=
  if negb (truthy acc) then Err (UnresolvedPointer ptr)
  else if isArray h acc then
    if String.eqb token "-" then Err InvalidArrayReference
    else if negb (Str.isUnsignedInteger token) then Err (InvalidArrayIndex token)
    else
      let index := Str.parseInt token in
      if (N.of_nat (arrayLength h acc) <=? Str.digitsValue token)%N
      then Err (ArrayIndexOutOfBounds index)
      else Ok (getIndex h acc (Str.digitsValue token))
  else if isObject h acc then
    if negb (hasOwn h acc token) then Err (KeyNotFound token)
    else Ok (getProp h acc token)
  else Err (UnresolvableToken token).

(** [evaluate(object, pointer)]: the path is interpreted first, then the
    root is checked. *)
Definition evaluate (h : heap) (object ptr : JSValue) : Result JSValue :=
  bindR (interpretPath ptr) (fun info =>
    if negb (isObject h object) then Err RootNotObject
    else if negb (String.eqb (nth 0 (paths info) EmptyString) EmptyString)
         then Err (InvalidPointer (pointer info))
    else if length (paths info) =? 1 then Ok object
    else reduce (evaluateStep h (pointer info)) (skipn 1 (paths info)) object).

(** ** Stateful computations: a store-passing monad with exceptions

    A computation takes the store and returns a value or an error together
    with the store it leaves behind; an exception keeps the updates made
    before it was raised. *)

Definition M (A : Type) : Type := heap -> Result A * heap.

Definition ret {A} (a : A) : M A := fun h => (Ok a, h).

Definition throw {A} (e : Error) : M A := fun h => (Err e, h).

Definition bind {A B} (m : M A) (k : A -> M B) : M B :=
  fun h =>
    match m h with
    | (Ok a, h') => k a h'
    | (Err e, h') => (Err e, h')
    end.

Notation "x <- m ;; k" := (bind m (fun x => k))
  (at level 100, m at next level, right associativity).

(** A computation that only reads the store. *)
Definition reading {A} (f : heap -> Result A) : M A := fun h => (f h, h).

(** Allocation of a new array or object. *)
Definition alloc (c : Cell) : M JSValue :=
  fun h => (Ok (VRef (length h)), h ++ [c]).

(** In-place update of the cell a reference denotes. *)
Definition updateCell (target : JSValue) (f : Cell -> Cell) : M unit :=
  fun h =>
    match target with
    | VRef l => (Ok tt, alter f l h)
    | _ => (Ok tt, h)
    end.

(** [target.push(value)] *)
Definition push (target value : JSValue) : M unit :=
  updateCell target (fun c =>
    match c with
    | CArr elems => CArr (elems ++ [value])
    | _ => c
    end).

(** [target.splice(index, 0, value)] *)
Definition spliceInsert (target : JSValue) (index : N) (value : JSValue) : M unit :=
  updateCell target (fun c =>
    match c with
    | CArr elems => CArr (take (N.to_nat index) elems ++ value :: drop (N.to_nat index) elems)
    | _ => c
    end).

(** [target.splice(index, 1)] *)
Definition spliceDelete (target : JSValue) (index : N) : M unit :=
  updateCell target (fun c =>
    match c with
    | CArr elems => CArr (take (N.to_nat index) elems ++ drop (S (N.to_nat index)) elems)
    | _ => c
    end).

Fixpoint assign (key : string) (value : JSValue) (props : list (string * JSValue))
  : list (string * JSValue) :=
  match props with
  | [] => [(key, value)]
  | (k, v) :: rest =>
      if String.eqb k key then (k, value) :: rest else (k, v) :: assign key value rest
  end.

(** [target[key] = value] *)
Definition setProp (target : JSValue) (key : string) (value : JSValue) : M unit :=
  updateCell target (fun c =>
    match c with
    | CObj props => CObj (assign key value props)
    | _ => c
    end).

(** [delete target[key]] *)
Definition deleteProp (target : JSValue) (key : string) : M unit :=
  updateCell target (fun c =>
    match c with
    | CObj props => CObj (List.filter (fun kv => negb (String.eqb (fst kv) key)) props)
    | _ => c
    end).

(** *** [structuredClone]

    The platform's structured clone: a deep copy that allocates a new cell
    for every array and object reachable from the value, keeping sharing
    (and cycles) by remembering which cell was copied to which. *)

Fixpoint memoFind (l : loc) (memo : list (loc * loc)) : option loc :=
  match memo with
  | [] => None
  | (src, dst) :: rest => if Nat.eqb src l then Some dst else memoFind l rest
  end.

Fixpoint mapAccum {S A B} (f : A -> S -> B * S) (xs : list A) (st : S) : list B * S :=
  match xs with
  | [] => ([], st)
  | x :: rest =>
      let '(y, st1) := f x st in
      let '(ys, st2) := mapAccum f rest st1 in
      (y :: ys, st2)
  end.

(** [src] is the store at the time of the call, read only; the state is the
    memory of copied cells and the store being extended. *)
Fixpoint cloneValue (fuel : nat) (src : heap) (v : JSValue) (st : list (loc * loc) * heap)
  : JSValue * (list (loc * loc) * heap) :=
  match v with
  | VRef l =>
      match memoFind l (fst st) with
      | Some l' => (VRef l', st)
      | None =>
          match fuel, src !! l with
          | S fuel', Some (CArr elems) =>
              let l' := length (snd st) in
              let st1 := ((l, l') :: fst st, snd st ++ [CArr []]) in
              let '(elems', (memo2, h2)) := mapAccum (cloneValue fuel' src) elems st1 in
              (VRef l', (memo2, <[l' := CArr elems']> h2))
          | S fuel', Some (CObj props) =>
              let l' := length (snd st) in
              let st1 := ((l, l') :: fst st, snd st ++ [CObj []]) in
              let '(vals', (memo2, h2)) := mapAccum (cloneValue fuel' src) (map snd props) st1 in
              (VRef l', (memo2, <[l' := CObj (zip (map fst props) vals')]> h2))
          | _, _ => (v, st)
          end
      end
  | _ => (v, st)
  end.

(** The cells of a store of [n] cells that are not yet copied, counted; and
    the order on memories, which only ever gain entries. *)
Fixpoint countPending (memo : list (loc * loc)) (n : nat) : nat :=
  match n with
  | 0 => 0
  | S k => (match memoFind k memo with Some _ => 0 | None => 1 end) + countPending memo k
  end.

Definition memoLe (m m' : list (loc * loc)) : Prop :=
  forall l x, memoFind l m = Some x -> memoFind l m' = Some x.

(** [structuredClone(value)].  Every level of nesting enters a cell that
    was not copied before, so [length h] levels are enough. *)
Definition structuredClone (value : JSValue) : M JSValue :=
  fun h =>
    let '(v', (_, h')) := cloneValue (length h) h value ([], h) in
    (Ok v', h').

(** ** patch.ts *)

Inductive Operation : Type :=
| OpAdd (path : string) (value : JSValue)
| OpRemove (path : string)
| OpReplace (path : string) (value : JSValue)
| OpMove (from path : string)
| OpCopy (from path : string)
| OpTest (path : string) (value : JSValue)
| OpOther (op : string).    (* an operation with any other [op] tag *)

(** The last element, [xs.at(-1)], and all but the last, [xs.slice(0, -1)]. *)
Definition lastToken (xs : list string) : string := List.last xs EmptyString.
Definition withoutLast (xs : list string) : list string := removelast xs.

(** [evaluate(a, b)] on the current store. *)
Definition evaluateM (a b : JSValue) : M JSValue := reading (fun h => evaluate h a b).

(** [add(object, { path, value })].  The call of [evaluate] passes the joined
    path first and the clone second, as the source does. *)
Definition add (object : JSValue) (path : string) (value : JSValue) : M JSValue :=
  info <- reading (fun _ => interpretPath (VStr path)) ;;
  objectClone <- structuredClone object ;;
  if negb (String.eqb (nth 0 (paths info) EmptyString) EmptyString)
  then throw (InvalidPointer path)
  else if length (paths info) =? 1 then alloc (CObj [("value"%string, value)])
  else
    let lastEl := lastToken (paths info) in
    if negb (truthy (VStr lastEl)) then throw (InvalidLastToken path)
    else
      let maybeValidPath := withoutLast (paths info) in
      target <- evaluateM (VStr (Str.join "/" maybeValidPath)) objectClone ;;
      if String.eqb lastEl "-" then
        fun h =>
          if negb (isArray h target) then throw InvalidPointerOperation h
          else (_ <- push target value ;; ret objectClone) h
      else if Str.isUnsignedInteger lastEl then
        fun h =>
          if negb (isArray h target) then throw InvalidPointerOperation h
          else if (N.of_nat (arrayLength h target) <? Str.digitsValue lastEl)%N
               then throw (IndexTooLarge lastEl (arrayLength h target)) h
          else (_ <- spliceInsert target (Str.digitsValue lastEl) value ;; ret objectClone) h
      else
        fun h =>
          if isObject h target then (_ <- setProp target lastEl value ;; ret objectClone) h
          else throw (InvalidAddOperation path) h.

(** [remove(object, { path })] *)
Definition remove (object : JSValue) (path : string) : M JSValue :=
  info <- reading (fun _ => interpretPath (VStr path)) ;;
  objectClone <- structuredClone object ;;
  if negb (String.eqb (nth 0 (paths info) EmptyString) EmptyString)
  then throw (InvalidPointer path)
  else if length (paths info) =? 1 then alloc (CObj [])
  else
    let lastEl := lastToken (paths info) in
    if negb (truthy (VStr lastEl)) then ret object
    else if String.eqb lastEl "-" then throw (InvalidRemovePointer path)
    else
      let maybeValidPath := withoutLast (paths info) in
      target <- evaluateM (VStr (Str.join "/" maybeValidPath)) objectClone ;;
      if Str.isUnsignedInteger lastEl then
        fun h =>
          if negb (isArray h target) then throw RemoveNonArray h
          else
            let index := Str.digitsValue lastEl in
            if negb (truthy (getIndex h target index)) then throw RemoveNonExistentElement h
            else (_ <- spliceDelete target index ;; ret objectClone) h
      else
        fun h =>
          if isObject h target then
            if strictEq (getProp h target lastEl) VUndefined then throw RemoveUndefinedMember h
            else (_ <- deleteProp target lastEl ;; ret objectClone) h
          else throw (InvalidRemoveOperation path) h.

(** [add(remove(object, ...), ...)] *)
Definition replace (object : JSValue) (path : string) (value : JSValue) : M JSValue :=
  removed <- remove object path ;;
  add removed path value.

(** [move(object, { from, path })] *)
Definition move (object : JSValue) (from path : string) : M JSValue :=
  value <- evaluateM (VStr from) object ;;
  removed <- remove object from ;;
  add removed path value.

(** [test(object, { path, value })] *)
Definition test (object : JSValue) (path : string) (value : JSValue) : M JSValue :=
  evaluateValue <- evaluateM (VStr path) object ;;
  let compareValue := value in
  equal <- reading (fun h => isEqual h evaluateValue compareValue) ;;
  if negb equal then throw TestMismatch
  else ret object.

(** [copy(object, { from, path })] *)
Definition copy (object : JSValue) (from path : string) : M JSValue :=
  if String.eqb from path then ret object
  else
    value <- evaluateM (VStr from) object ;;
    add object path value.

(** [apply(object, operation)]: the [switch] on [operation.op]. *)
Definition apply (object : JSValue) (operation : Operation) : M JSValue :=
  match operation with
  | OpAdd path value => add object path value
  | OpRemove path => remove object path
  | OpCopy from path => copy object from path
  | OpReplace path value => replace object path value
  | OpMove from path => move object from path
  | OpTest path value => test object path value
  | OpOther _ => ret object
  end.

(** [xs.reduce(f, init)] and [xs.forEach(f)] for callbacks with effects. *)
Fixpoint reduceM {A B} (f : B -> A -> M B) (xs : list A) (init : B) : M B :=
  match xs with
  | [] => ret init
  | x :: rest => acc <- f init x ;; reduceM f rest acc
  end.

Fixpoint forEach {A} (f : A -> M unit) (xs : list A) : M unit :=
  match xs with
  | [] => ret tt
  | x :: rest => _ <- f x ;; forEach f rest
  end.

(** A hook is an arbitrary callback: it may update the store or throw. *)
Definition Hook : Type := JSValue -> list Operation -> M unit.

(** [applyPatch(object, operations, hooks?)]; an omitted [hooks] is [None]. *)
Definition applyPatch (object : JSValue) (operations : list Operation)
    (hooks : option (list Hook)) : M JSValue :=
  result <- reduceM (fun object operation => apply object operation) operations object ;;
  _ <- match hooks with
       | Some hs =>
           if 0 <? length hs then forEach (fun hook => hook result operations) hs
           else ret tt
       | None => ret tt
       end ;;
  ret result.

(** ** Sample documents (from the test suites) *)

(** [{ a: 1, b: { c: 2, d: [3, 4] } }], the root at reference 0. *)
Definition sampleHeap : heap :=
  [ CObj [("a"%string, VNum 1%float); ("b"%string, VRef 1)];
    CObj [("c"%string, VNum 2%float); ("d"%string, VRef 2)];
    CArr [VNum 3%float; VNum 4%float] ].

(** [{ a: 1, b: { c: 2, d: [3, 4] }, e: [5, { x: 'hello' }, [6, 7]] }], the
    [sampleObject] of the pointer tests, the root at reference 0. *)
Definition nestedHeap : heap :=
  [ CObj [("a"%string, VNum 1%float); ("b"%string, VRef 1); ("e"%string, VRef 3)];
    CObj [("c"%string, VNum 2%float); ("d"%string, VRef 2)];
    CArr [VNum 3%float; VNum 4%float];
    CArr [VNum 5%float; VRef 4; VRef 5];
    CObj [("x"%string, VStr "hello")];
    CArr [VNum 6%float; VNum 7%float] ].

(** [{ 'slash/key': 'secret', 'tilde~key': 123 }] *)
Definition trickyHeap : heap :=
  [ CObj [("slash/key"%string, VStr "secret"); ("tilde~key"%string, VNum 123%float)] ].

(** [{ a: 1, b: { c: 2, d: [3, 4] }, e: [5, 6] }], the [initialObject] of
    the patch tests, the root at reference 0. *)
Definition initialHeap : heap :=
  [ CObj [("a"%string, VNum 1%float); ("b"%string, VRef 1); ("e"%string, VRef 3)];
    CObj [("c"%string, VNum 2%float); ("d"%string, VRef 2)];
    CArr [VNum 3%float; VNum 4%float];
    CArr [VNum 5%float; VNum 6%float] ].

(** [{ list: [0, '', false, null] }] *)
Definition falsyHeap : heap :=
  [ CObj [("list"%string, VRef 1)];
    CArr [VNum 0%float; VStr ""; VBool false; VNull] ].

(** The spec's wording of the root requirement: the document is an object
    or an array. *)
Definition isObjectOrArray (h : heap) (v : JSValue) : bool :=
  isObject h v || isArray h v.

(** ** Frame conditions *)

(** Every cell of [h] is still there, with the same contents, in [h']. *)
Definition unchanged (h h' : heap) : Prop :=
  forall (l : loc) (c : Cell), h !! l = Some c -> h' !! l = Some c.


(** A computation never updates a cell that existed when it started,
    whether it returns or throws. *)
Definition neverMutates {A} (m : M A) : Prop :=
  forall h : heap, unchanged h (snd (m h)).


(** The spec's wording of the applicator: a left-to-right fold of [apply]
    that stops at the first error. *)
Fixpoint foldApply (ops : list Operation) (D : JSValue) (h : heap) : Result JSValue * heap :=
  match ops with
  | [] => (Ok D, h)
  | op :: rest =>
      match apply D op h with
      | (Ok D', h') => foldApply rest D' h'
      | (Err e, h') => (Err e, h')
      end
  end.

(** ** Well-formed tokens and structural equality *)

(** A reference token in escaped form: no raw slash, and every tilde is
    followed by [0] or [1]. *)
Fixpoint wellEscaped (s : string) : bool :=
  match s with
  | EmptyString => true
  | String a rest =>
      if Ascii.eqb a "/" then false
      else if Ascii.eqb a "~" then
        match rest with
        | String b rest' => (Ascii.eqb b "0" || Ascii.eqb b "1") && wellEscaped rest'
        | EmptyString => false
        end
      else wellEscaped rest
  end.

(** Two values have the same structure: equal primitives (NaN being equal
    to NaN), the same reference, arrays that agree element by element, or
    plain objects with as many keys where every key of the first is a key
    of the second with a value of the same structure. *)
#[warnings="-register-all"]
Inductive sameValue (h : heap) : JSValue -> JSValue -> Prop :=
| same_strict a b :
    strictEq a b = true -> sameValue h a b
| same_nan a b :
    isNaN a = true -> isNaN b = true -> sameValue h a b
| same_array a b xs ys :
    arrayOf h a = Some xs -> arrayOf h b = Some ys ->
    Forall2 (sameValue h) xs ys ->
    sameValue h a b
| same_object a b :
    isObject h a = true -> isObject h b = true ->
    length (keys h a) = length (keys h b) ->
    (forall k, In k (keys h a) ->
               hasOwn h b k = true /\ sameValue h (getProp h a k) (getProp h b k)) ->
    sameValue h a b.

(** The reference tokens of a path, as [interpretPath] computes them. *)
Definition tokens (path : string) : list string :=
  map unescapeToken (Str.split "/" path).

(** A path is rooted when it is empty or starts with a slash. *)
Definition rooted (path : string) : Prop :=
  path = EmptyString \/ exists rest, path = String "/" rest.

(** The computation returns (does not throw) from the store [h]. *)
Definition returns {A} (m : M A) (h : heap) : Prop :=
  exists (a : A) (h' : heap), m h = (Ok a, h').

(** ** Copy on write *)

(** A value that refers to none of the first [n] cells of the store: a
    primitive, or a reference to a cell allocated after them. *)
Definition isNewVal (n : nat) (v : JSValue) : Prop :=
  match v with
  | VRef l => n <= l
  | _ => True
  end.

Definition cellValues (c : Cell) : list JSValue :=
  match c with
  | CArr elems => elems
  | CObj props => map snd props
  end.

(** The cells from [n] on hold such values only: nothing allocated after
    the first [n] cells refers back into them. *)
Definition closedFrom (n : nat) (h : heap) : Prop :=
  forall (l : loc) (c : Cell),
    n <= l -> h !! l = Some c -> Forall (isNewVal n) (cellValues c).

(** While cloning: the store keeps the [n] original cells in front, the
    memory maps to new cells only, and the new cells are closed. *)
Definition cloning (n : nat) (st : list (loc * loc) * heap) : Prop :=
  n <= length (snd st)
  /\ (forall l l', memoFind l (fst st) = Some l' -> n <= l')
  /\ closedFrom n (snd st).

(** * Theorems *)

(** ** The model on the cases of the test suites *)

Example split_pointer : Str.split "/" "/b/d/1" = [""; "b"; "d"; "1"]%string.
Proof. reflexivity. Qed.

Example split_empty : Str.split "/" "" = [""]%string.
Proof. reflexivity. Qed.

Example evaluate_not_object :
  evaluate [] (VNum 42%float) (VStr "/a") = Err RootNotObject
  /\ evaluate [] VNull (VStr "/a") = Err RootNotObject
  /\ evaluate [] VUndefined (VStr "/a") = Err RootNotObject.
Proof. repeat split. Qed.

Example evaluate_no_leading_slash :
  evaluate sampleHeap (VRef 0) (VStr "noLeadingSlash") = Err (InvalidPointer "noLeadingSlash").
Proof. reflexivity. Qed.

Example evaluate_slash : evaluate sampleHeap (VRef 0) (VStr "/") = Err (KeyNotFound "").
Proof. reflexivity. Qed.

Example evaluate_nested : evaluate sampleHeap (VRef 0) (VStr "/b/c") = Ok (VNum 2%float).
Proof. reflexivity. Qed.

Example evaluate_into_number :
  evaluate sampleHeap (VRef 0) (VStr "/a/x") = Err (UnresolvableToken "x").
Proof. reflexivity. Qed.

Example evaluate_out_of_bounds :
  evaluate sampleHeap (VRef 0) (VStr "/b/d/999") = Err (ArrayIndexOutOfBounds 999%float).
Proof. reflexivity. Qed.

(** Above 2^53 the index reported is the rounded double. *)
Example evaluate_out_of_bounds_rounded :
  evaluate sampleHeap (VRef 0) (VStr "/b/d/9007199254740993")
  = Err (ArrayIndexOutOfBounds 9007199254740992%float).
Proof. reflexivity. Qed.

Example toDouble_rounding :
  Str.toDouble 9007199254740992 = 9007199254740992%float
  /\ Str.toDouble 9007199254740993 = 9007199254740992%float
  /\ Str.toDouble 9007199254740995 = 9007199254740996%float
  /\ Str.toDouble 9007199254740997 = 9007199254740996%float
  /\ Str.toDouble 18014398509481985 = 18014398509481984%float
  /\ Str.toDouble 18014398509481987 = 18014398509481988%float
  /\ Str.toDouble 123456789012345678901234567890 = 0x1.8ee90ff6c373ep+96%float
  /\ Str.toDouble (10 ^ 21) = 1e21%float
  /\ Str.toDouble (10 ^ 308) = 0x1.1ccf385ebc8ap+1023%float
  /\ Str.toDouble (2 ^ 1024 - 2 ^ 970 - 1) = 0x1.fffffffffffffp1023%float
  /\ Str.toDouble (2 ^ 1024 - 2 ^ 970) = infinity
  /\ Str.toDouble (10 ^ 400) = infinity
  /\ Str.toDouble 0 = 0%float.
Proof. repeat split. Qed.

Example evaluate_non_digit :
  evaluate sampleHeap (VRef 0) (VStr "/b/d/abc") = Err (InvalidArrayIndex "abc").
Proof. reflexivity. Qed.

Example evaluate_dash :
  evaluate sampleHeap (VRef 0) (VStr "/b/d/-") = Err InvalidArrayReference.
Proof. reflexivity. Qed.

Example evaluate_missing_parent :
  evaluate sampleHeap (VRef 0) (VStr "/f/g") = Err (KeyNotFound "f").
Proof. reflexivity. Qed.

(** [isEqual] compares by structure: a document and its clone are equal,
    [NaN] equals [NaN], a number differs from a string. *)
Example isEqual_clone :
  let '(copy, h) := structuredClone (VRef 0) initialHeap in
  copy = Ok (VRef 4) /\ isEqual h (VRef 0) (VRef 4) = Ok true
  /\ isEqual h (VRef 2) (VRef 3) = Ok false.
Proof. repeat split. Qed.

Example isEqual_primitives :
  isEqual [] (VNum nan) (VNum nan) = Ok true
  /\ isEqual [] (VNum 42%float) (VStr "42") = Ok false
  /\ isEqual [] VNull VUndefined = Ok false.
Proof. repeat split. Qed.

(** [add] at the root of [{}], as in the first patch test. *)
Example add_root_example :
  add (VRef 0) "" (VRef 1) [CObj []; CObj [("key"%string, VStr "value")]]
  = (Ok (VRef 3),
     [CObj []; CObj [("key"%string, VStr "value")]; CObj []; CObj [("value"%string, VRef 1)]]).
Proof. reflexivity. Qed.



(** ** Strings *)

Lemma string_append_assoc (a b c : string) :
  String.append (String.append a b) c = String.append a (String.append b c).
Proof. induction a as [|x a IH]; [reflexivity|]. simpl. now rewrite IH. Qed.

(** ** Global replacement *)

Section ReplaceFacts.

Variables (c1 c2 : ascii) (rep : string).

Lemma replaceAll2_cons2 a b rest :
  Str.replaceAll2 c1 c2 rep (String a (String b rest))
  = if Ascii.eqb a c1 && Ascii.eqb b c2
    then String.append rep (Str.replaceAll2 c1 c2 rep rest)
    else String a (Str.replaceAll2 c1 c2 rep (String b rest)).
Proof. reflexivity. Qed.

Lemma replaceAll2_skip a rest :
  a <> c1 ->
  Str.replaceAll2 c1 c2 rep (String a rest)
  = String a (Str.replaceAll2 c1 c2 rep rest).
Proof.
  intros Ha. destruct rest as [|b rest']; [reflexivity|].
  cbn [Str.replaceAll2].
  destruct (Ascii.eqb_spec a c1); [contradiction|reflexivity].
Qed.

Lemma replaceAll2_skip2 a b rest :
  b <> c2 ->
  Str.replaceAll2 c1 c2 rep (String a (String b rest))
  = String a (Str.replaceAll2 c1 c2 rep (String b rest)).
Proof.
  intros Hb. cbn [Str.replaceAll2].
  destruct (Ascii.eqb_spec b c2); [contradiction|].
  rewrite andb_false_r. reflexivity.
Qed.

Lemma replaceAll2_hit rest :
  Str.replaceAll2 c1 c2 rep (String c1 (String c2 rest))
  = String.append rep (Str.replaceAll2 c1 c2 rep rest).
Proof.
  cbn [Str.replaceAll2]. rewrite !Ascii.eqb_refl. reflexivity.
Qed.

(** A match never straddles a position whose right-hand side does not
    start with the second character of the pattern. *)
Lemma replaceAll2_app a x t :
  x <> c2 ->
  Str.replaceAll2 c1 c2 rep (String.append a (String x t))
  = String.append (Str.replaceAll2 c1 c2 rep a)
                  (Str.replaceAll2 c1 c2 rep (String x t)).
Proof.
  intros Hx.
  cut (forall n a, String.length a <= n ->
         Str.replaceAll2 c1 c2 rep (String.append a (String x t))
         = String.append (Str.replaceAll2 c1 c2 rep a)
                         (Str.replaceAll2 c1 c2 rep (String x t))).
  { intros H. apply (H (String.length a)). lia. }
  clear a. induction n as [|n IH]; intros a Hn.
  - destruct a; [reflexivity|simpl in Hn; lia].
  - destruct a as [|a0 [|a1 a']].
    + reflexivity.
    + change (String.append (String a0 EmptyString) (String x t))
        with (String a0 (String x t)).
      rewrite replaceAll2_skip2 by assumption. reflexivity.
    + change (String.append (String a0 (String a1 a')) (String x t))
        with (String a0 (String a1 (String.append a' (String x t)))).
      simpl in Hn.
      rewrite !replaceAll2_cons2.
      destruct (Ascii.eqb a0 c1 && Ascii.eqb a1 c2).
      * rewrite IH by lia. symmetry. apply string_append_assoc.
      * change (String a1 (String.append a' (String x t)))
          with (String.append (String a1 a') (String x t)).
        rewrite IH by (simpl; lia). reflexivity.
Qed.

End ReplaceFacts.

(** ** Escaping and unescaping of reference tokens *)

Lemma escapeToken_cons c s :
  escapeToken (String c s) = String.append (escapeChar c) (escapeToken s).
Proof.
  unfold escapeToken, escapeChar. cbn [Str.replaceAll1].
  destruct (Ascii.eqb c "~"); [reflexivity|].
  cbn [Str.replaceAll1]. destruct (Ascii.eqb c "/"); reflexivity.
Qed.

(** The first unescaping pass undoes the second escaping pass. *)
Lemma unescape_pass1_escapeToken s :
  Str.replaceAll2 "~" "1" "/" (escapeToken s) = Str.replaceAll1 "~" "~0" s.
Proof.
  induction s as [|c s IH]; [reflexivity|].
  rewrite escapeToken_cons. unfold escapeChar.
  cbn [Str.replaceAll1].
  destruct (Ascii.eqb_spec c "~") as [->|Hc].
  - cbn [String.append].
    rewrite replaceAll2_skip2 by discriminate.
    rewrite replaceAll2_skip by discriminate.
    rewrite IH. reflexivity.
  - destruct (Ascii.eqb_spec c "/") as [->|Hc'].
    + cbn [String.append]. rewrite replaceAll2_hit, IH. reflexivity.
    + cbn [String.append]. rewrite replaceAll2_skip by assumption.
      rewrite IH. reflexivity.
Qed.

(** The second unescaping pass undoes the first escaping pass. *)
Lemma unescape_pass2_escape_pass1 s :
  Str.replaceAll2 "~" "0" "~" (Str.replaceAll1 "~" "~0" s) = s.
Proof.
  induction s as [|c s IH]; [reflexivity|].
  cbn [Str.replaceAll1].
  destruct (Ascii.eqb_spec c "~") as [->|Hc].
  - cbn [String.append]. rewrite replaceAll2_hit, IH. reflexivity.
  - rewrite replaceAll2_skip by assumption. rewrite IH. reflexivity.
Qed.

Lemma unescape_escape s : unescapeToken (escapeToken s) = s.
Proof.
  unfold unescapeToken.
  rewrite unescape_pass1_escapeToken. apply unescape_pass2_escape_pass1.
Qed.

Lemma unescapeToken_tilde01 a b :
  unescapeToken (String.append a (String.append "~01" b))
  = String.append (unescapeToken a) (String.append "~1" (unescapeToken b)).
Proof.
  unfold unescapeToken. cbn [String.append].
  rewrite replaceAll2_app by discriminate.
  rewrite replaceAll2_skip2 by discriminate.
  rewrite 2 replaceAll2_skip by discriminate.
  rewrite replaceAll2_app by discriminate.
  rewrite replaceAll2_hit. cbn [String.append].
  rewrite replaceAll2_skip by discriminate.
  reflexivity.
Qed.

(** C10: escaping a reference token and unescaping it again gives the token
    back, for every string. *)
Theorem unescapeToken_escapeToken :
  forall s : string, unescapeToken (escapeToken s) = s.
Proof.
  intros s. unfold unescapeToken.
  rewrite unescape_pass1_escapeToken.
  apply unescape_pass2_escape_pass1.
Qed.

(** ** Splitting a pointer *)

Lemma split_nonempty sep s : Str.split sep s <> [].
Proof.
  destruct s as [|c s]; simpl; [discriminate|].
  destruct (Ascii.eqb c sep); [discriminate|].
  destruct (Str.split sep s); discriminate.
Qed.

Lemma split_no_sep sep s : Str.contains sep s = false -> Str.split sep s = [s].
Proof.
  induction s as [|c s IH]; simpl; [reflexivity|].
  intros H. apply orb_false_elim in H as [Hc Hs].
  rewrite Hc, (IH Hs). reflexivity.
Qed.

Lemma split_app_sep sep a t :
  Str.split sep (String.append a (String sep t)) = Str.split sep a ++ Str.split sep t.
Proof.
  induction a as [|c a IH]; simpl.
  - rewrite Ascii.eqb_refl. reflexivity.
  - destruct (Ascii.eqb c sep); [rewrite IH; reflexivity|].
    rewrite IH. pose proof (split_nonempty sep a) as Hne.
    destruct (Str.split sep a); [contradiction|reflexivity].
Qed.

Lemma contains_append c a b :
  Str.contains c (String.append a b) = Str.contains c a || Str.contains c b.
Proof.
  induction a as [|x a IH]; simpl; [reflexivity|].
  rewrite IH. apply orb_assoc.
Qed.

(** An escaped token has no raw slash left. *)
Lemma escapeToken_no_slash s : Str.contains "/" (escapeToken s) = false.
Proof.
  induction s as [|c s IH]; [reflexivity|].
  rewrite escapeToken_cons, contains_append, IH, orb_false_r.
  unfold escapeChar.
  destruct (Ascii.eqb c "~"); [reflexivity|].
  destruct (Ascii.eqb c "/") eqn:E; [reflexivity|].
  simpl. rewrite E. reflexivity.
Qed.

(** ** The evaluator *)

Lemma reduce_snoc {A B} (f : B -> A -> Result B) xs x init :
  reduce f (xs ++ [x]) init = bindR (reduce f xs init) (fun acc => f acc x).
Proof.
  revert init. induction xs as [|y xs IH]; intros init; simpl.
  - destruct (f init x); reflexivity.
  - destruct (f init y); [apply IH|reflexivity].
Qed.

(** A successful step does not depend on the pointer kept for messages. *)
Lemma evaluateStep_ok_pointer h p1 p2 acc token v :
  evaluateStep h p1 acc token = Ok v -> evaluateStep h p2 acc token = Ok v.
Proof.
  unfold evaluateStep. destruct (truthy acc); simpl; [tauto|discriminate].
Qed.

Lemma reduce_evaluateStep_ok_pointer h p1 p2 tokens init v :
  reduce (evaluateStep h p1) tokens init = Ok v ->
  reduce (evaluateStep h p2) tokens init = Ok v.
Proof.
  revert init. induction tokens as [|t tokens IH]; intros init; simpl; [tauto|].
  destruct (evaluateStep h p1 init t) eqn:E; [|discriminate].
  rewrite (evaluateStep_ok_pointer _ _ p2 _ _ _ E). apply IH.
Qed.

Lemma evaluateStep_not_root h p acc token :
  evaluateStep h p acc token <> Err RootNotObject.
Proof.
  unfold evaluateStep.
  repeat match goal with
         | |- context [if ?b then _ else _] => destruct b
         end; discriminate.
Qed.

Lemma reduce_evaluateStep_not_root h p tokens init :
  reduce (evaluateStep h p) tokens init <> Err RootNotObject.
Proof.
  revert init. induction tokens as [|t tokens IH]; intros init; simpl; [discriminate|].
  destruct (evaluateStep h p init t) eqn:E; [apply IH|].
  intros [= ->]. exact (evaluateStep_not_root _ _ _ _ E).
Qed.

(** [evaluate] on a string pointer, with the early return folded into the
    reduction over no tokens. *)
Lemma evaluate_string h object p :
  evaluate h object (VStr p)
  = let ps := map unescapeToken (Str.split "/" p) in
    if negb (isObject h object) then Err RootNotObject
    else if negb (String.eqb (nth 0 ps EmptyString) EmptyString) then Err (InvalidPointer p)
    else reduce (evaluateStep h p) (skipn 1 ps) object.
Proof.
  unfold evaluate. cbn [interpretPath bindR paths pointer].
  cbv zeta.
  destruct (negb (isObject h object)); [reflexivity|].
  destruct (negb _); [reflexivity|].
  pose proof (split_nonempty "/" p) as Hne.
  destruct (Str.split "/" p) as [|x [|y rest]]; [contradiction|reflexivity|reflexivity].
Qed.

(** An object root is a reference, hence truthy, and is not an array. *)
Lemma isObject_inv h v :
  isObject h v = true -> truthy v = true /\ isArray h v = false.
Proof.
  unfold isObject. destruct v; simpl; try discriminate.
  destruct (isArray h (VRef l)); simpl; [discriminate|auto].
Qed.

Lemma isArray_not_isObject h v : isArray h v = true -> isObject h v = false.
Proof.
  unfold isObject. intros ->. simpl. rewrite andb_false_r. reflexivity.
Qed.

(** Appending one more reference token to a pointer that resolves: the walk
    takes one more step from the value reached. *)
Lemma evaluate_snoc h object p tok acc :
  Str.contains "/" tok = false ->
  evaluate h object (VStr p) = Ok acc ->
  evaluate h object (VStr (String.append p (String "/" tok)))
  = evaluateStep h (String.append p (String "/" tok)) acc (unescapeToken tok).
Proof.
  intros Htok. rewrite !evaluate_string. cbv zeta.
  rewrite split_app_sep, (split_no_sep _ _ Htok), map_app.
  destruct (negb (isObject h object)); [discriminate|].
  pose proof (split_nonempty "/" p) as Hne.
  destruct (Str.split "/" p) as [|x rest]; [contradiction|].
  cbn [map app nth skipn].
  destruct (negb _); [discriminate|].
  rewrite !drop_0.
  intros Hacc. rewrite reduce_snoc.
  rewrite (reduce_evaluateStep_ok_pointer _ _ _ _ _ _ Hacc). reflexivity.
Qed.

(** The values [isObject] accepts: references that do not denote an array. *)
Lemma isObject_spec h v :
  isObject h v = true <-> exists l, v = VRef l /\ isArray h v = false.
Proof.
  split.
  - intros H. destruct (isObject_inv _ _ H) as [_ Harr].
    destruct v; try discriminate H. eauto.
  - intros (l & -> & Harr). unfold isObject. rewrite Harr. reflexivity.
Qed.

(** C1 (amended): [evaluate] fails with RootNotObject exactly when the root
    is not a plain object, that is when it is a primitive, null, undefined
    or an Array; a plain-object root never raises it, whatever the
    pointer. *)
Theorem evaluate_RootNotObject_iff :
  forall (h : heap) (D : JSValue) (P : string),
    (evaluate h D (VStr P) = Err RootNotObject <-> isObject h D = false)
    /\ (isObject h D = false <-> (forall l, D <> VRef l) \/ isArray h D = true).
Proof.
  intros h D P. split.
  - rewrite evaluate_string. cbv zeta.
    destruct (isObject h D); simpl.
    + split; [|discriminate].
      destruct (negb _); [discriminate|].
      intros H. exfalso. exact (reduce_evaluateStep_not_root _ _ _ _ H).
    + split; reflexivity.
  - split.
    + intros H. destruct D; try (left; discriminate).
      right. destruct (isArray h (VRef l)) eqn:E; [reflexivity|].
      assert (isObject h (VRef l) = true) by (apply isObject_spec; eauto).
      congruence.
    + intros [H|H]; [|exact (isArray_not_isObject _ _ H)].
      destruct (isObject h D) eqn:E; [|reflexivity].
      apply isObject_spec in E as (l & -> & _). exfalso. exact (H l eq_refl).
Qed.

(** An Array root is Object-or-Array-shaped and is still rejected. *)
Lemma evaluate_array_root_rejected :
  ~ (forall (h : heap) (D : JSValue) (P : string),
       isObjectOrArray h D = true -> evaluate h D (VStr P) <> Err RootNotObject).
Proof.
  intros H. apply (H sampleHeap (VRef 2) "/0"%string); reflexivity.
Qed.

Lemma evaluate_root h D : isObject h D = true -> evaluate h D (VStr "") = Ok D.
Proof.
  intros H. rewrite evaluate_string. cbv zeta. rewrite H. reflexivity.
Qed.

(** Looking up an own member of an object root by its escaped name. *)
Lemma evaluate_member h D k v :
  isObject h D = true ->
  lookupProp k (propsOf h D) = Some v ->
  evaluate h D (VStr (String "/" (escapeToken k))) = Ok v.
Proof.
  intros Hobj Hk.
  change (String "/" (escapeToken k))
    with (String.append EmptyString (String "/" (escapeToken k))).
  rewrite (evaluate_snoc h D EmptyString (escapeToken k) D
             (escapeToken_no_slash k) (evaluate_root h D Hobj)).
  rewrite unescape_escape.
  destruct (isObject_inv _ _ Hobj) as [Ht Ha].
  unfold evaluateStep, hasOwn, getProp. rewrite Ht, Ha, Hobj, Hk. reflexivity.
Qed.

(** C8 (amended): on a plain-object root the empty pointer returns the very
    document that was passed. *)
Theorem evaluate_empty_pointer :
  forall (h : heap) (D : JSValue),
    isObject h D = true -> evaluate h D (VStr "") = Ok D.
Proof.
  intros h D H. rewrite evaluate_string. cbv zeta.
  rewrite H. reflexivity.
Qed.

Lemma evaluate_empty_pointer_witness :
  isObject sampleHeap (VRef 0) = true
  /\ evaluate sampleHeap (VRef 0) (VStr "") = Ok (VRef 0).
Proof.
  split; [reflexivity|]. apply evaluate_empty_pointer. reflexivity.
Defined.

(** The empty pointer on an Array root does not return the document. *)
Lemma evaluate_empty_pointer_array_root :
  ~ (forall (h : heap) (D : JSValue),
       isObjectOrArray h D = true -> evaluate h D (VStr "") = Ok D).
Proof.
  intros H. specialize (H [CArr []] (VRef 0) eq_refl). discriminate H.
Qed.

(** C7: unescaping replaces [~1] before [~0], so the encoding [~01] decodes
    to [~1] and not to [/], wherever it stands in a token; a member whose
    name contains [/] or [~] is reached through its escaped name, as
    [slash/key] through [/slash~1key] and [tilde~key] through
    [/tilde~0key]. *)
Theorem unescape_order_and_addressing :
  (forall a b : string,
     unescapeToken (String.append a (String.append "~01" b))
     = String.append (unescapeToken a) (String.append "~1" (unescapeToken b)))
  /\ unescapeToken "~01" = "~1"%string
  /\ unescapeToken "~01" <> "/"%string
  /\ (forall (h : heap) (D : JSValue) (k : string) (v : JSValue),
        isObject h D = true ->
        lookupProp k (propsOf h D) = Some v ->
        evaluate h D (VStr (String "/" (escapeToken k))) = Ok v)
  /\ escapeToken "slash/key" = "slash~1key"%string
  /\ evaluate trickyHeap (VRef 0) (VStr "/slash~1key") = Ok (VStr "secret")
  /\ escapeToken "tilde~key" = "tilde~0key"%string
  /\ evaluate trickyHeap (VRef 0) (VStr "/tilde~0key") = Ok (VNum 123%float).
Proof.
  split; [exact unescapeToken_tilde01|].
  split; [reflexivity|].
  split; [discriminate|].
  split; [exact evaluate_member|].
  repeat split.
Qed.

Lemma unescape_order_and_addressing_witness :
  evaluate trickyHeap (VRef 0) (VStr (String "/" (escapeToken "slash/key")))
  = Ok (VStr "secret").
Proof.
  apply (proj1 (proj2 (proj2 (proj2 unescape_order_and_addressing)))
           trickyHeap (VRef 0) "slash/key"%string (VStr "secret")); reflexivity.
Defined.

(** ** The store: allocation and cloning never touch existing cells *)

Lemma unchanged_refl h : unchanged h h.
Proof. intros l c H. exact H. Qed.

Lemma unchanged_trans h1 h2 h3 : unchanged h1 h2 -> unchanged h2 h3 -> unchanged h1 h3.
Proof. intros H12 H23 l c H. auto. Qed.

Lemma unchanged_app h ext : unchanged h (h ++ ext).
Proof. intros l c H. apply lookup_app_l_Some. exact H. Qed.

Lemma unchanged_length h h' : unchanged h h' -> length h <= length h'.
Proof.
  intros H. destruct (decide (length h = 0)) as [->|Hne]; [lia|].
  destruct (lookup_lt_is_Some_2 h (length h - 1)) as [c Hc]; [lia|].
  apply H in Hc. apply lookup_lt_Some in Hc. lia.
Qed.

Lemma lookup_app_new (h0 : heap) (c0 : Cell) :
  (h0 ++ [c0]) !! length h0 = Some c0.
Proof. rewrite lookup_app_r by lia. rewrite Nat.sub_diag. reflexivity. Qed.

(** Writing to a cell allocated later leaves the earlier ones alone. *)
Lemma unchanged_insert_new h h' l c :
  unchanged h h' -> length h <= l -> unchanged h (<[l := c]> h').
Proof.
  intros H Hl l0 c0 H0.
  assert (l0 < length h) by (eapply lookup_lt_Some; eauto).
  rewrite list_lookup_insert_ne by lia. auto.
Qed.

Lemma mapAccum_invariant {S A B} (R : S -> S -> Prop) (f : A -> S -> B * S) :
  (forall st, R st st) ->
  (forall s1 s2 s3, R s1 s2 -> R s2 s3 -> R s1 s3) ->
  (forall x st, R st (snd (f x st))) ->
  forall xs st, R st (snd (mapAccum f xs st)).
Proof.
  intros Hrefl Htrans Hf. induction xs as [|x xs IH]; intros st; simpl.
  - apply Hrefl.
  - specialize (Hf x st). destruct (f x st) as [y st1]. simpl in Hf.
    specialize (IH st1). destruct (mapAccum f xs st1) as [ys st2]. simpl in *.
    eapply Htrans; eauto.
Qed.

Lemma mapAccum_unchanged {A B} (f : A -> list (loc * loc) * heap -> B * (list (loc * loc) * heap)) :
  (forall x st, unchanged (snd st) (snd (snd (f x st)))) ->
  forall xs st, unchanged (snd st) (snd (snd (mapAccum f xs st))).
Proof.
  intros Hf.
  apply (mapAccum_invariant (fun s1 s2 => unchanged (snd s1) (snd s2))).
  - intros st. apply unchanged_refl.
  - intros s1 s2 s3. apply unchanged_trans.
  - exact Hf.
Qed.

Lemma cloneValue_unchanged fuel src v st :
  unchanged (snd st) (snd (snd (cloneValue fuel src v st))).
Proof.
  revert v st. induction fuel as [|fuel IH]; intros v st.
  - destruct v; simpl; try apply unchanged_refl.
    destruct (memoFind l (fst st)); simpl; apply unchanged_refl.
  - destruct v; simpl; try apply unchanged_refl.
    destruct (memoFind l (fst st)); simpl; [apply unchanged_refl|].
    destruct (src !! l) as [[elems|props]|]; simpl; [| |apply unchanged_refl].
    + pose proof (mapAccum_unchanged (cloneValue fuel src) (IH) elems
                    ((l, length (snd st)) :: fst st, snd st ++ [CArr []])) as H.
      destruct (mapAccum _ elems _) as [elems' [memo2 h2]]. simpl in *.
      apply unchanged_insert_new; [|lia].
      eapply unchanged_trans; [apply unchanged_app|exact H].
    + pose proof (mapAccum_unchanged (cloneValue fuel src) (IH) (map snd props)
                    ((l, length (snd st)) :: fst st, snd st ++ [CObj []])) as H.
      destruct (mapAccum _ (map snd props) _) as [vals' [memo2 h2]]. simpl in *.
      apply unchanged_insert_new; [|lia].
      eapply unchanged_trans; [apply unchanged_app|exact H].
Qed.

(** [structuredClone] always returns, and every cell that existed before the
    call is unchanged after it. *)
Lemma structuredClone_spec value h :
  exists v' h', structuredClone value h = (Ok v', h') /\ unchanged h h'.
Proof.
  unfold structuredClone.
  pose proof (cloneValue_unchanged (length h) h value ([], h)) as H.
  destruct (cloneValue (length h) h value ([], h)) as [v' [memo h']].
  simpl in H. eauto.
Qed.

(** *** The recursion bound of [structuredClone] is never reached *)

Lemma memoLe_refl m : memoLe m m.
Proof. intros l x H. exact H. Qed.

Lemma memoLe_trans m1 m2 m3 : memoLe m1 m2 -> memoLe m2 m3 -> memoLe m1 m3.
Proof. intros H12 H23 l x H. auto. Qed.

Lemma memoLe_cons m l l' : memoFind l m = None -> memoLe m ((l, l') :: m).
Proof.
  intros Hnone l0 x H. simpl.
  destruct (Nat.eqb_spec l l0) as [->|_]; [congruence|exact H].
Qed.

Lemma cloneValue_memoLe fuel src v st :
  memoLe (fst st) (fst (snd (cloneValue fuel src v st))).
Proof.
  revert v st. induction fuel as [|fuel IH]; intros v st.
  - destruct v; simpl; try apply memoLe_refl.
    destruct (memoFind l (fst st)); simpl; apply memoLe_refl.
  - destruct v; simpl; try apply memoLe_refl.
    destruct (memoFind l (fst st)) eqn:Hl; simpl; [apply memoLe_refl|].
    destruct (src !! l) as [[elems|props]|]; simpl; [| |apply memoLe_refl].
    + pose proof (mapAccum_invariant (fun s1 s2 => memoLe (fst s1) (fst s2))
                    (cloneValue fuel src) (fun st => memoLe_refl _)
                    (fun s1 s2 s3 => memoLe_trans _ _ _) IH elems
                    ((l, length (snd st)) :: fst st, snd st ++ [CArr []])) as H.
      destruct (mapAccum _ elems _) as [elems' [memo2 h2]]. simpl in *.
      eapply memoLe_trans; [apply memoLe_cons; exact Hl|exact H].
    + pose proof (mapAccum_invariant (fun s1 s2 => memoLe (fst s1) (fst s2))
                    (cloneValue fuel src) (fun st => memoLe_refl _)
                    (fun s1 s2 s3 => memoLe_trans _ _ _) IH (map snd props)
                    ((l, length (snd st)) :: fst st, snd st ++ [CObj []])) as H.
      destruct (mapAccum _ (map snd props) _) as [vals' [memo2 h2]]. simpl in *.
      eapply memoLe_trans; [apply memoLe_cons; exact Hl|exact H].
Qed.

Lemma countPending_mono m m' n : memoLe m m' -> countPending m' n <= countPending m n.
Proof.
  intros Hle. induction n as [|k IH]; simpl; [lia|].
  destruct (memoFind k m) eqn:E; [rewrite (Hle _ _ E); lia|].
  destruct (memoFind k m'); lia.
Qed.

Lemma countPending_le m n : countPending m n <= n.
Proof.
  induction n as [|k IH]; simpl; [lia|]. destruct (memoFind k m); lia.
Qed.

(** Entering a cell that was not copied before uses up one pending cell. *)
Lemma countPending_cons m l l' n :
  memoFind l m = None -> l < n ->
  countPending ((l, l') :: m) n < countPending m n.
Proof.
  intros Hnone. induction n as [|k IH]; intros Hl; [lia|].
  cbn [countPending].
  destruct (Nat.eq_dec l k) as [->|Hne].
  - rewrite Hnone. cbn [memoFind]. rewrite Nat.eqb_refl.
    apply Nat.lt_succ_r.
    exact (countPending_mono m ((k, l') :: m) k (memoLe_cons _ _ _ Hnone)).
  - assert (Hlt : l < k) by lia. specialize (IH Hlt).
    cbn [memoFind]. destruct (Nat.eqb_spec l k); [contradiction|].
    destruct (memoFind k m); lia.
Qed.

Lemma mapAccum_agree {S A B} (P : S -> Prop) (f g : A -> S -> B * S) :
  (forall x st, P st -> f x st = g x st) ->
  (forall x st, P st -> P (snd (g x st))) ->
  forall xs st, P st -> mapAccum f xs st = mapAccum g xs st.
Proof.
  intros Hfg HP. induction xs as [|x xs IH]; intros st Hst; simpl; [reflexivity|].
  rewrite (Hfg x st Hst). specialize (HP x st Hst).
  destruct (g x st) as [y st1]. simpl in HP. rewrite (IH st1 HP). reflexivity.
Qed.

(** With as much fuel as there are cells still to copy, more fuel changes
    nothing: the bound is not reached. *)
Lemma cloneValue_fuel_enough src fuel v st :
  countPending (fst st) (length src) <= fuel ->
  cloneValue (S fuel) src v st = cloneValue fuel src v st.
Proof.
  revert v st. induction fuel as [|fuel IH]; intros v st Hfuel.
  - destruct v; try reflexivity. cbn [cloneValue].
    destruct (memoFind l (fst st)) eqn:Hl; [reflexivity|].
    destruct (src !! l) as [cell|] eqn:Hcell; [|reflexivity].
    apply lookup_lt_Some in Hcell.
    pose proof (countPending_cons (fst st) l 0 (length src) Hl Hcell). lia.
  - destruct v; try reflexivity.
    change (cloneValue (S (S fuel)) src (VRef l) st)
      with (match memoFind l (fst st) with
            | Some l' => (VRef l', st)
            | None =>
                match src !! l with
                | Some (CArr elems) =>
                    let l' := length (snd st) in
                    let st1 := ((l, l') :: fst st, snd st ++ [CArr []]) in
                    let '(elems', (memo2, h2)) :=
                      mapAccum (cloneValue (S fuel) src) elems st1 in
                    (VRef l', (memo2, <[l' := CArr elems']> h2))
                | Some (CObj props) =>
                    let l' := length (snd st) in
                    let st1 := ((l, l') :: fst st, snd st ++ [CObj []]) in
                    let '(vals', (memo2, h2)) :=
                      mapAccum (cloneValue (S fuel) src) (map snd props) st1 in
                    (VRef l', (memo2, <[l' := CObj (zip (map fst props) vals')]> h2))
                | None => (VRef l, st)
                end
            end).
    change (cloneValue (S fuel) src (VRef l) st)
      with (match memoFind l (fst st) with
            | Some l' => (VRef l', st)
            | None =>
                match src !! l with
                | Some (CArr elems) =>
                    let l' := length (snd st) in
                    let st1 := ((l, l') :: fst st, snd st ++ [CArr []]) in
                    let '(elems', (memo2, h2)) :=
                      mapAccum (cloneValue fuel src) elems st1 in
                    (VRef l', (memo2, <[l' := CArr elems']> h2))
                | Some (CObj props) =>
                    let l' := length (snd st) in
                    let st1 := ((l, l') :: fst st, snd st ++ [CObj []]) in
                    let '(vals', (memo2, h2)) :=
                      mapAccum (cloneValue fuel src) (map snd props) st1 in
                    (VRef l', (memo2, <[l' := CObj (zip (map fst props) vals')]> h2))
                | None => (VRef l, st)
                end
            end).
    destruct (memoFind l (fst st)) eqn:Hl; [reflexivity|].
    destruct (src !! l) as [cell|] eqn:Hcell; [|reflexivity].
    assert (Hlt : l < length src) by (eapply lookup_lt_Some; eauto).
    pose proof (countPending_cons (fst st) l (length (snd st)) (length src) Hl Hlt) as Hdec.
    assert (Hagree : forall xs c,
               mapAccum (cloneValue (S fuel) src) xs
                 ((l, length (snd st)) :: fst st, snd st ++ [c])
               = mapAccum (cloneValue fuel src) xs
                   ((l, length (snd st)) :: fst st, snd st ++ [c])).
    { intros xs c.
      apply (mapAccum_agree (fun s => countPending (fst s) (length src) <= fuel)).
      - intros x s Hs. apply IH. exact Hs.
      - intros x s Hs.
        pose proof (countPending_mono _ _ (length src) (cloneValue_memoLe fuel src x s)).
        lia.
      - simpl. apply (proj1 (Nat.lt_succ_r _ _)).
        eapply Nat.lt_le_trans; [exact Hdec|exact Hfuel]. }
    destruct cell as [elems|props]; cbv zeta; rewrite Hagree; reflexivity.
Qed.

Lemma cloneValue_more_fuel src fuel k v st :
  countPending (fst st) (length src) <= fuel ->
  cloneValue (fuel + k) src v st = cloneValue fuel src v st.
Proof.
  intros H. induction k as [|k IH].
  - rewrite Nat.add_0_r. reflexivity.
  - rewrite Nat.add_succ_r, <- IH. apply cloneValue_fuel_enough. lia.
Qed.

(** [structuredClone] would compute the same copy with any larger bound. *)
Lemma structuredClone_fuel_enough value h k :
  cloneValue (length h + k) h value ([], h) = cloneValue (length h) h value ([], h).
Proof. apply cloneValue_more_fuel. apply countPending_le. Qed.

Lemma bind_ok {A B} (m : M A) (k : A -> M B) h a h1 :
  m h = (Ok a, h1) -> bind m k h = k a h1.
Proof. unfold bind. intros ->. reflexivity. Qed.

Lemma bind_err {A B} (m : M A) (k : A -> M B) h e h1 :
  m h = (Err e, h1) -> bind m k h = (Err e, h1).
Proof. unfold bind. intros ->. reflexivity. Qed.

(** ** Copy on write: the clone is new, and edits go to the clone *)

Lemma Forall_snd_zip {A B} (P : B -> Prop) (ks : list A) (vs : list B) :
  Forall P vs -> Forall P (map snd (zip ks vs)).
Proof.
  intros H. revert ks. induction H as [|v vs Hv _ IH]; intros [|k ks]; simpl;
    try constructor; auto.
Qed.

Lemma mapAccum_closed {S A B} (P : S -> Prop) (Q : B -> Prop) (f : A -> S -> B * S) :
  (forall x st, P st -> Q (fst (f x st)) /\ P (snd (f x st))) ->
  forall xs st, P st ->
    Forall Q (fst (mapAccum f xs st)) /\ P (snd (mapAccum f xs st)).
Proof.
  intros Hf. induction xs as [|x xs IH]; intros st Hst; simpl; [auto|].
  destruct (Hf x st Hst) as [Hq Hp]. destruct (f x st) as [y st1]. simpl in *.
  destruct (IH st1 Hp) as [Hqs Hps]. destruct (mapAccum f xs st1) as [ys st2]. simpl in *.
  split; [constructor; assumption|assumption].
Qed.

Lemma cloning_alloc n memo h l c :
  cloning n (memo, h) -> cellValues c = [] ->
  cloning n ((l, length h) :: memo, h ++ [c]).
Proof.
  intros (Hlen & Hmemo & Hclosed) Hc. simpl in *. repeat split; simpl.
  - rewrite length_app. lia.
  - intros l0 l'. destruct (Nat.eqb l l0); [intros [= <-]; exact Hlen|apply Hmemo].
  - intros l0 c0 Hl0 Hlook. apply lookup_app_Some in Hlook as [Hlook|[_ Hlook]].
    + eapply Hclosed; eauto.
    + destruct (l0 - length h) as [|k]; simpl in Hlook; [|destruct k; discriminate Hlook].
      injection Hlook as <-. rewrite Hc. constructor.
Qed.

Lemma cloning_fill n memo h l c :
  cloning n (memo, h) -> Forall (isNewVal n) (cellValues c) ->
  cloning n (memo, <[l := c]> h).
Proof.
  intros (Hlen & Hmemo & Hclosed) Hc. simpl in *. repeat split; simpl.
  - rewrite length_insert. exact Hlen.
  - exact Hmemo.
  - intros l0 c0 Hl0 Hlook.
    apply list_lookup_insert_Some in Hlook as [(-> & <- & _)|[_ Hlook]]; [exact Hc|].
    eapply Hclosed; eauto.
Qed.

(** Cloning returns a value that is new, and keeps the new cells closed,
    as long as the fuel covers the cells still to copy. *)
Lemma cloneValue_closed src fuel v st :
  cloning (length src) st ->
  countPending (fst st) (length src) <= fuel ->
  isNewVal (length src) (fst (cloneValue fuel src v st))
  /\ cloning (length src) (snd (cloneValue fuel src v st)).
Proof.
  revert v st. induction fuel as [|fuel IH]; intros v st Hst Hfuel.
  - destruct v; simpl; try (split; [exact I|exact Hst]).
    destruct (memoFind l (fst st)) eqn:Hl; simpl.
    + split; [|exact Hst]. destruct Hst as (_ & Hmemo & _). eapply Hmemo; eauto.
    + split; [|exact Hst].
      destruct (src !! l) as [cell|] eqn:Hcell; [|apply lookup_ge_None; exact Hcell].
      apply lookup_lt_Some in Hcell.
      pose proof (countPending_cons (fst st) l 0 (length src) Hl Hcell). lia.
  - destruct v; simpl; try (split; [exact I|exact Hst]).
    destruct (memoFind l (fst st)) eqn:Hl; simpl.
    { split; [|exact Hst]. destruct Hst as (_ & Hmemo & _). eapply Hmemo; eauto. }
    destruct (src !! l) as [cell|] eqn:Hcell; simpl;
      [|split; [apply lookup_ge_None; exact Hcell|exact Hst]].
    assert (Hlt : l < length src) by (eapply lookup_lt_Some; eauto).
    pose proof (countPending_cons (fst st) l (length (snd st)) (length src) Hl Hlt) as Hdec.
    assert (Hstep : forall xs c, cellValues c = [] ->
               Forall (isNewVal (length src))
                 (fst (mapAccum (cloneValue fuel src) xs
                         ((l, length (snd st)) :: fst st, snd st ++ [c])))
               /\ (cloning (length src)
                     (snd (mapAccum (cloneValue fuel src) xs
                             ((l, length (snd st)) :: fst st, snd st ++ [c])))
                   /\ countPending
                        (fst (snd (mapAccum (cloneValue fuel src) xs
                                     ((l, length (snd st)) :: fst st, snd st ++ [c]))))
                        (length src) <= fuel)).
    { intros xs c Hc.
      apply (mapAccum_closed
               (fun s => cloning (length src) s
                         /\ countPending (fst s) (length src) <= fuel)
               (isNewVal (length src))).
      - intros x s [Hs Hp]. destruct (IH x s Hs Hp) as [Hq Hs'].
        split; [exact Hq|]. split; [exact Hs'|].
        pose proof (countPending_mono _ _ (length src) (cloneValue_memoLe fuel src x s)).
        lia.
      - split.
        + destruct st as [memo hc]. apply cloning_alloc; assumption.
        + simpl. apply (proj1 (Nat.lt_succ_r _ _)).
          eapply Nat.lt_le_trans; [exact Hdec|exact Hfuel]. }
    assert (Hl' : length src <= length (snd st)) by (destruct Hst as (H & _); exact H).
    destruct cell as [elems|props].
    + destruct (Hstep elems (CArr []) eq_refl) as (Hq & Hs & _).
      destruct (mapAccum _ elems _) as [elems' [memo2 h2]]. simpl in *.
      split; [exact Hl'|]. apply cloning_fill; assumption.
    + destruct (Hstep (map snd props) (CObj []) eq_refl) as (Hq & Hs & _).
      destruct (mapAccum _ (map snd props) _) as [vals' [memo2 h2]]. simpl in *.
      split; [exact Hl'|]. apply cloning_fill; [assumption|].
      apply Forall_snd_zip. exact Hq.
Qed.

(** [structuredClone] returns a value that is new with respect to the store
    of the call, in a store whose new cells refer to new cells only, and
    leaves every existing cell unchanged. *)
Lemma structuredClone_new value h :
  exists v' h',
    structuredClone value h = (Ok v', h')
    /\ unchanged h h'
    /\ isNewVal (length h) v'
    /\ closedFrom (length h) h'.
Proof.
  unfold structuredClone.
  pose proof (cloneValue_unchanged (length h) h value ([], h)) as U.
  assert (Hst : cloning (length h) ([], h)).
  { repeat split; simpl; [lia|discriminate|].
    intros l c Hl Hc. apply lookup_lt_Some in Hc. lia. }
  destruct (cloneValue_closed h (length h) value ([], h) Hst (countPending_le _ _))
    as [Hnew (_ & _ & Hclosed)].
  destruct (cloneValue (length h) h value ([], h)) as [v' [memo h']]. simpl in *.
  eauto 10.
Qed.

Lemma lookupProp_Some_In key props v :
  lookupProp key props = Some v -> In v (map snd props).
Proof.
  induction props as [|[k0 v0] props IH]; simpl; [discriminate|].
  destruct (String.eqb k0 key); [intros [= ->]; auto|auto].
Qed.

(** What a step of the walk reads from a new value in a closed store is new
    again. *)
Lemma evaluateStep_new n h p acc token v :
  closedFrom n h -> isNewVal n acc ->
  evaluateStep h p acc token = Ok v -> isNewVal n v.
Proof.
  intros Hclosed Hacc. unfold evaluateStep, getIndex, getProp, hasOwn.
  destruct (negb (truthy acc)); [discriminate|].
  destruct acc; try (unfold isArray, isObject; simpl; discriminate).
  simpl in Hacc. unfold isArray, arrayOf, propsOf.
  destruct (h !! l) as [[elems|props]|] eqn:Hl.
  - destruct (String.eqb token "-"); [discriminate|].
    destruct (negb _); [discriminate|].
    destruct (_ <=? _)%N; [discriminate|]. intros [= <-].
    destruct (elems !! _) as [x|] eqn:Hx; simpl; [|exact I].
    pose proof (Hclosed l (CArr elems) Hacc Hl) as Hall. simpl in Hall.
    rewrite Forall_forall in Hall. apply Hall. eapply list_elem_of_lookup_2. exact Hx.
  - destruct (isObject h (VRef l)); [|discriminate].
    destruct (lookupProp token props) as [x|] eqn:Hx; [|discriminate].
    simpl. intros [= <-].
    pose proof (Hclosed l (CObj props) Hacc Hl) as Hall. simpl in Hall.
    rewrite Forall_forall in Hall. apply Hall. apply list_elem_of_In.
    eapply lookupProp_Some_In. exact Hx.
  - destruct (isObject h (VRef l)); [|discriminate]. simpl. discriminate.
Qed.

(** Whatever [evaluate] returns when its first argument is new is new: the
    walk never leaves the cells of the clone. *)
Lemma evaluate_new n h a b v :
  closedFrom n h -> isNewVal n a -> evaluate h a b = Ok v -> isNewVal n v.
Proof.
  intros Hclosed Ha. unfold evaluate.
  destruct (interpretPath b) as [info|e]; [|discriminate]. cbn [bindR].
  destruct (negb (isObject h a)); [discriminate|].
  destruct (negb _); [discriminate|].
  destruct (length (paths info) =? 1); [intros [= <-]; exact Ha|].
  generalize (skipn 1 (paths info)) as toks. intros toks. revert a Ha.
  induction toks as [|t toks IH]; intros a Ha; simpl; [intros [= <-]; exact Ha|].
  destruct (evaluateStep h (pointer info) a t) as [a'|e] eqn:E; [|discriminate].
  apply IH. eapply evaluateStep_new; eauto.
Qed.

(** An in-place update of a new value does not touch the original cells. *)
Lemma updateCell_unchanged h h1 target f :
  unchanged h h1 -> isNewVal (length h) target ->
  unchanged h (snd (updateCell target f h1)).
Proof.
  intros U Ht. destruct target; simpl; try exact U.
  intros l0 c Hl0. simpl in Ht.
  assert (l0 < length h) by (eapply lookup_lt_Some; eauto).
  rewrite list_lookup_alter_ne by lia. apply U. exact Hl0.
Qed.

Lemma update_ret_unchanged {A} h h1 target f (r : A) :
  unchanged h h1 -> isNewVal (length h) target ->
  unchanged h (snd (bind (updateCell target f) (fun _ => ret r) h1)).
Proof.
  intros U Ht. pose proof (updateCell_unchanged h h1 target f U Ht) as H.
  unfold bind. destruct target; simpl in *; exact H.
Qed.

(** [add] leaves the original cells unchanged: it clones first, the value
    [evaluate] returns lies in the clone, and the one edit goes there. *)
Lemma add_neverMutates object path value : neverMutates (add object path value).
Proof.
  intros h.
  destruct (structuredClone_new object h) as (objectClone & h1 & E & U & Hnew & Hclosed).
  unfold add. cbn [interpretPath].
  erewrite bind_ok by reflexivity.
  erewrite bind_ok by exact E. cbn [paths].
  destruct (negb (String.eqb _ _)); [exact U|].
  destruct (length _ =? 1); [eapply unchanged_trans; [exact U|apply unchanged_app]|].
  destruct (negb (truthy _)); [exact U|].
  unfold bind at 1. unfold evaluateM, reading.
  match goal with
  | |- context [evaluate h1 ?a ?b] =>
      destruct (evaluate h1 a b) as [target|e] eqn:Ev; [|exact U];
      assert (Ht : isNewVal (length h) target)
        by (apply (evaluate_new _ _ _ _ _ Hclosed) in Ev; [exact Ev|];
            first [exact I|exact Hnew])
  end.
  unfold push, spliceInsert, setProp.
  repeat match goal with
         | |- context [if ?b then _ else _] => destruct b
         end;
    first [exact U | apply update_ret_unchanged; assumption].
Qed.

Lemma remove_neverMutates object path : neverMutates (remove object path).
Proof.
  intros h.
  destruct (structuredClone_new object h) as (objectClone & h1 & E & U & Hnew & Hclosed).
  unfold remove. cbn [interpretPath].
  erewrite bind_ok by reflexivity.
  erewrite bind_ok by exact E. cbn [paths].
  destruct (negb (String.eqb _ _)); [exact U|].
  destruct (length _ =? 1); [eapply unchanged_trans; [exact U|apply unchanged_app]|].
  destruct (negb (truthy _)); [exact U|].
  destruct (String.eqb _ "-"); [exact U|].
  unfold bind at 1. unfold evaluateM, reading.
  match goal with
  | |- context [evaluate h1 ?a ?b] =>
      destruct (evaluate h1 a b) as [target|e] eqn:Ev; [|exact U];
      assert (Ht : isNewVal (length h) target)
        by (apply (evaluate_new _ _ _ _ _ Hclosed) in Ev; [exact Ev|];
            first [exact I|exact Hnew])
  end.
  unfold spliceDelete, deleteProp. cbv zeta.
  repeat match goal with
         | |- context [if ?b then _ else _] => destruct b
         end;
    first [exact U | apply update_ret_unchanged; assumption].
Qed.

(** Sequencing keeps both properties. *)
Lemma bind_neverMutates {A B} (m : M A) (k : A -> M B) :
  neverMutates m -> (forall a, neverMutates (k a)) -> neverMutates (bind m k).
Proof.
  intros Hm Hk h. unfold bind. specialize (Hm h).
  destruct (m h) as [[a|e] h1]; simpl in *; [|exact Hm].
  eapply unchanged_trans; [exact Hm|apply Hk].
Qed.

Lemma evaluateM_neverMutates a b : neverMutates (evaluateM a b).
Proof. intros h. apply unchanged_refl. Qed.

Lemma replace_neverMutates object path value : neverMutates (replace object path value).
Proof.
  apply bind_neverMutates; [apply remove_neverMutates|].
  intros removed. apply add_neverMutates.
Qed.

Lemma move_neverMutates object from path : neverMutates (move object from path).
Proof.
  apply bind_neverMutates; [apply evaluateM_neverMutates|]. intros value.
  apply bind_neverMutates; [apply remove_neverMutates|].
  intros removed. apply add_neverMutates.
Qed.

Lemma copy_neverMutates object from path : neverMutates (copy object from path).
Proof.
  unfold copy. destruct (String.eqb from path).
  - intros h. apply unchanged_refl.
  - apply bind_neverMutates; [apply evaluateM_neverMutates|].
    intros value. apply add_neverMutates.
Qed.

Lemma copy_same object path h : copy object path path h = (Ok object, h).
Proof. unfold copy. rewrite String.eqb_refl. reflexivity. Qed.

(** *** What the operations return *)













(** ** The calls of [evaluate] in patch.ts

    [evaluate] is declared as [(object, pointer)]; the patch operations call
    it with the pointer string first.  A string is not an object, and a
    document is not a string, so such a call never returns. *)
Lemma evaluate_pointer_first h s v :
  evaluate h (VStr s) v = Err TypeError \/ evaluate h (VStr s) v = Err RootNotObject.
Proof.
  unfold evaluate, isObject. destruct v; simpl; auto.
Qed.

Lemma evaluateM_pointer_first s v h :
  exists e, evaluateM (VStr s) v h = (Err e, h) /\ (e = TypeError \/ e = RootNotObject).
Proof.
  unfold evaluateM, reading.
  destruct (evaluate_pointer_first h s v) as [-> | ->]; eauto.
Qed.

(** ** Outcomes of the patch operations *)

(** [remove] returns a new empty object (empty path), or the document
    itself (empty last token), or throws. *)
Lemma remove_outcome object path h :
  exists h1, unchanged h h1 /\
    (remove object path h = (Ok (VRef (length h1)), h1 ++ [CObj []])
     \/ remove object path h = (Ok object, h1)
     \/ exists e, remove object path h = (Err e, h1)
                  /\ (e = InvalidPointer path \/ e = InvalidRemovePointer path
                      \/ e = TypeError \/ e = RootNotObject)).
Proof.
  destruct (structuredClone_spec object h) as (objectClone & h1 & E & U).
  exists h1. split; [exact U|].
  unfold remove. cbn [interpretPath].
  erewrite bind_ok by reflexivity.
  erewrite bind_ok by exact E. cbn [paths].
  destruct (negb (String.eqb _ _)); [right; right; eexists; split; [reflexivity|auto]|].
  destruct (length _ =? 1); [left; reflexivity|].
  destruct (negb (truthy _)); [right; left; reflexivity|].
  destruct (String.eqb _ "-"); [right; right; eexists; split; [reflexivity|auto]|].
  destruct (evaluateM_pointer_first
              (Str.join "/" (withoutLast (map unescapeToken (Str.split "/" path))))
              objectClone h1) as (e & Ee & He).
  erewrite bind_err by exact Ee.
  right; right. exists e. split; [reflexivity|]. tauto.
Qed.

(** [test] starts with a call of [evaluate] that never returns. *)
Lemma test_outcome object path value h :
  exists e, test object path value h = (Err e, h) /\ (e = TypeError \/ e = RootNotObject).
Proof.
  unfold test, bind.
  destruct (evaluateM_pointer_first path object h) as (e & -> & He). eauto.
Qed.

(** The same holds for [move], and for [copy] unless [from] equals [path]. *)
Lemma move_outcome object from path h :
  exists e, move object from path h = (Err e, h) /\ (e = TypeError \/ e = RootNotObject).
Proof.
  unfold move, bind.
  destruct (evaluateM_pointer_first from object h) as (e & -> & He). eauto.
Qed.

(** C3: [add] at the empty path always succeeds and returns a newly
    allocated object whose only member is [value], bound to the given
    value; the document is wrapped, not replaced, and no existing cell is
    touched. *)
Theorem add_root_wraps :
  forall (D v : JSValue) (h : heap),
    exists (l : loc) (h' : heap),
      add D "" v h = (Ok (VRef l), h')
      /\ h !! l = None
      /\ h' !! l = Some (CObj [("value"%string, v)])
      /\ unchanged h h'.
Proof.
  intros D v h.
  destruct (structuredClone_spec D h) as (objectClone & h1 & E & U).
  exists (length h1), (h1 ++ [CObj [("value"%string, v)]]).
  split; [|split; [|split]].
  - unfold add. cbn [interpretPath].
    erewrite bind_ok by reflexivity.
    erewrite bind_ok by exact E. reflexivity.
  - apply lookup_ge_None. apply unchanged_length. exact U.
  - apply lookup_app_new.
  - eapply unchanged_trans; [exact U|apply unchanged_app].
Qed.

(** C4: what the code does where the claim expects [test] to return the
    document or to raise TestMismatch.  [test] calls [evaluate] with the
    path first and the document second, so it throws a TypeError (or
    RootNotObject on a string document) before any comparison: it never
    returns the document and never raises TestMismatch.  In the sample
    document [/a] resolves to 1, yet [test] throws TypeError both for the
    expected value 1 and for 999. *)
Theorem test_throws_before_comparing :
  (forall (D : JSValue) (path : string) (value : JSValue) (h : heap),
      exists e, test D path value h = (Err e, h) /\ (e = TypeError \/ e = RootNotObject))
  /\ (evaluate initialHeap (VRef 0) (VStr "/a") = Ok (VNum 1%float)
      /\ isEqual initialHeap (VNum 1%float) (VNum 1%float) = Ok true
      /\ test (VRef 0) "/a" (VNum 1%float) initialHeap = (Err TypeError, initialHeap))
  /\ (isEqual initialHeap (VNum 1%float) (VNum 999%float) = Ok false
      /\ test (VRef 0) "/a" (VNum 999%float) initialHeap = (Err TypeError, initialHeap)).
Proof.
  split; [exact test_outcome|]. repeat split.
Qed.

(** C5: what the code does where the claim expects [remove] to splice a
    truthy array element out or to raise InvalidRemoveTarget on a falsy
    one.  [remove] calls [evaluate] with the joined path first and the
    clone second, so for a path that ends in an array index it throws a
    TypeError before it looks at the array: it returns only for the empty
    path (a new empty object) or an empty last token (the document
    itself), and the only errors are InvalidPointer, the rejection of [-],
    TypeError and RootNotObject.  [/e/0] (element 5, truthy) of the sample
    document and [/list/0] (element 0, falsy) both end in TypeError. *)
Theorem remove_throws_before_indexing :
  (forall (D : JSValue) (path : string) (h : heap),
      exists h1, unchanged h h1 /\
        (remove D path h = (Ok (VRef (length h1)), h1 ++ [CObj []])
         \/ remove D path h = (Ok D, h1)
         \/ exists e, remove D path h = (Err e, h1)
                      /\ (e = InvalidPointer path \/ e = InvalidRemovePointer path
                          \/ e = TypeError \/ e = RootNotObject)))
  /\ (evaluate initialHeap (VRef 0) (VStr "/e") = Ok (VRef 3)
      /\ arrayOf initialHeap (VRef 3) = Some [VNum 5%float; VNum 6%float]
      /\ truthy (VNum 5%float) = true
      /\ fst (remove (VRef 0) "/e/0" initialHeap) = Err TypeError)
  /\ (evaluate falsyHeap (VRef 0) (VStr "/list") = Ok (VRef 1)
      /\ getIndex falsyHeap (VRef 1) 0 = VNum 0%float
      /\ truthy (VNum 0%float) = false
      /\ fst (remove (VRef 0) "/list/0" falsyHeap) = Err TypeError).
Proof.
  split; [exact remove_outcome|]. repeat split.
Qed.

(** ** The applicator *)

Lemma reduceM_apply_foldApply ops D h :
  reduceM (fun object operation => apply object operation) ops D h = foldApply ops D h.
Proof.
  revert D h. induction ops as [|op ops IH]; intros D h; simpl; [reflexivity|].
  unfold bind. destruct (apply D op h) as [[D'|e] h']; [apply IH|reflexivity].
Qed.

Lemma applyPatch_no_hooks D ops h :
  applyPatch D ops None h = foldApply ops D h
  /\ applyPatch D ops (Some []) h = foldApply ops D h.
Proof.
  unfold applyPatch, bind. rewrite reduceM_apply_foldApply.
  destruct (foldApply ops D h) as [[D'|e] h']; split; reflexivity.
Qed.

(** The fold stops at the first operation that throws. *)
Lemma foldApply_app_err ops1 op ops2 D h Di hi e h' :
  foldApply ops1 D h = (Ok Di, hi) ->
  apply Di op hi = (Err e, h') ->
  foldApply (ops1 ++ op :: ops2) D h = (Err e, h').
Proof.
  revert D h. induction ops1 as [|o ops1 IH]; intros D h; simpl.
  - intros [= -> ->] ->. reflexivity.
  - destruct (apply D o h) as [[D'|e'] h1]; [apply IH|discriminate].
Qed.

(** C2: without hooks (omitted, or an empty list) [applyPatch] is the
    left-to-right fold of [apply] from the input document: no operations
    return the document, a first operation that throws ends the call with
    its error, otherwise the rest is applied to its result; hence if the
    operations before the i-th succeed and the i-th throws, the call throws
    that error and returns no document, and if all succeed the fully folded
    document is returned. *)
Theorem applyPatch_is_fail_fast_fold :
  forall (D : JSValue) (ops : list Operation) (h : heap),
    applyPatch D ops None h = foldApply ops D h
    /\ applyPatch D ops (Some []) h = foldApply ops D h
    /\ applyPatch D [] None h = (Ok D, h)
    /\ (forall op rest,
          ops = op :: rest ->
          applyPatch D ops None h
          = match apply D op h with
            | (Ok D', h') => applyPatch D' rest None h'
            | (Err e, h') => (Err e, h')
            end)
    /\ (forall ops1 op ops2 Di hi e h',
          ops = ops1 ++ op :: ops2 ->
          applyPatch D ops1 None h = (Ok Di, hi) ->
          apply Di op hi = (Err e, h') ->
          applyPatch D ops None h = (Err e, h')).
Proof.
  intros D ops h.
  split; [apply applyPatch_no_hooks|].
  split; [apply applyPatch_no_hooks|].
  split; [reflexivity|].
  split.
  - intros op rest ->.
    rewrite (proj1 (applyPatch_no_hooks D (op :: rest) h)). simpl.
    destruct (apply D op h) as [[D'|e] h']; [|reflexivity].
    symmetry. apply applyPatch_no_hooks.
  - intros ops1 op ops2 Di hi e h' -> H1 Hop.
    rewrite (proj1 (applyPatch_no_hooks D ops1 h)) in H1.
    rewrite (proj1 (applyPatch_no_hooks D (ops1 ++ op :: ops2) h)).
    eapply foldApply_app_err; eauto.
Qed.

Lemma applyPatch_is_fail_fast_fold_witness :
  fst (applyPatch (VRef 0) [OpAdd "" VNull; OpCopy "/a" "/b"; OpRemove ""] None initialHeap)
  = Err TypeError.
Proof.
  destruct (applyPatch_is_fail_fast_fold (VRef 0)
              [OpAdd "" VNull; OpCopy "/a" "/b"; OpRemove ""] initialHeap)
    as (_ & _ & _ & _ & H).
  rewrite (H [OpAdd "" VNull] (OpCopy "/a" "/b") [OpRemove ""] (VRef 8)
             (snd (add (VRef 0) "" VNull initialHeap)) TypeError
             (snd (add (VRef 0) "" VNull initialHeap)) eq_refl eq_refl eq_refl).
  reflexivity.
Defined.

(** * Further properties of the pointer evaluator *)

Lemma replaceAll2_nonempty c1 c2 r rep a rest :
  Str.replaceAll2 c1 c2 (String r rep) (String a rest) <> EmptyString.
Proof.
  destruct rest as [|b rest']; [discriminate|].
  rewrite replaceAll2_cons2. destruct (_ && _); discriminate.
Qed.

Lemma unescapeToken_empty_iff s : unescapeToken s = EmptyString <-> s = EmptyString.
Proof.
  split; [|intros ->; reflexivity].
  destruct s as [|a rest]; [reflexivity|]. unfold unescapeToken. intros H. exfalso.
  destruct (Str.replaceAll2 "~" "1" "/" (String a rest)) as [|a' rest'] eqn:E.
  - exact (replaceAll2_nonempty _ _ _ _ _ _ E).
  - exact (replaceAll2_nonempty _ _ _ _ _ _ H).
Qed.

Lemma split_head sep c rest :
  c <> sep -> exists piece more, Str.split sep (String c rest) = String c piece :: more.
Proof.
  intros Hc. simpl. destruct (Ascii.eqb_spec c sep); [contradiction|].
  destruct (Str.split sep rest); eauto.
Qed.

(** The first token is empty exactly for the empty pointer and for pointers
    that start with a slash. *)
Lemma first_token_empty_iff P :
  nth 0 (map unescapeToken (Str.split "/" P)) EmptyString = EmptyString
  <-> P = EmptyString \/ exists rest, P = String "/" rest.
Proof.
  destruct P as [|c rest]; [split; auto|].
  destruct (Ascii.eqb_spec c "/") as [->|Hc].
  - simpl. split; eauto.
  - destruct (split_head "/" c rest Hc) as (piece & more & ->). cbn [map nth].
    split.
    + intros H. apply (proj1 (unescapeToken_empty_iff _)) in H. discriminate H.
    + intros [H|(r & [= -> _])]; [discriminate H|contradiction].
Qed.

Lemma reduce_err_inv {A B} (f : B -> A -> Result B) xs init e :
  reduce f xs init = Err e -> exists acc x, f acc x = Err e.
Proof.
  revert init. induction xs as [|x xs IH]; intros init; simpl; [discriminate|].
  destruct (f init x) eqn:E; [apply IH|]. intros [= ->]. eauto.
Qed.

Lemma reduce_app {A B} (f : B -> A -> Result B) xs ys init :
  reduce f (xs ++ ys) init = bindR (reduce f xs init) (reduce f ys).
Proof.
  revert init. induction xs as [|x xs IH]; intros init; simpl; [reflexivity|].
  destruct (f init x); [apply IH|reflexivity].
Qed.

Lemma evaluateStep_not_InvalidPointer h p acc token p' :
  evaluateStep h p acc token <> Err (InvalidPointer p').
Proof.
  unfold evaluateStep.
  repeat match goal with
         | |- context [if ?b then _ else _] => destruct b
         end; discriminate.
Qed.

(** A value that is not a reference is neither an array nor an object. *)
Lemma primitive_not_container h v :
  (forall l, v <> VRef l) -> isArray h v = false /\ isObject h v = false.
Proof.
  intros H. destruct v; try (split; reflexivity). exfalso. exact (H l eq_refl).
Qed.

Lemma allDigits_no_special s :
  Str.allDigits s = true -> Str.contains "/" s = false /\ Str.contains "~" s = false.
Proof.
  induction s as [|c s IH]; simpl; [auto|].
  intros H. apply andb_prop in H as [Hc Hs]. destruct (IH Hs) as [-> ->].
  rewrite !orb_false_r. unfold Str.isDigit in Hc.
  apply andb_prop in Hc as [Hlo Hhi]. apply N.leb_le in Hlo, Hhi.
  split.
  - destruct (Ascii.eqb_spec c "/") as [->|]; [simpl in Hlo; lia|reflexivity].
  - destruct (Ascii.eqb_spec c "~") as [->|]; [simpl in Hhi; lia|reflexivity].
Qed.

Lemma unescapeToken_no_tilde s : Str.contains "~" s = false -> unescapeToken s = s.
Proof.
  intros H. unfold unescapeToken.
  assert (E : forall x, Str.replaceAll2 "~" x "~" s = s
                        /\ Str.replaceAll2 "~" x "/" s = s).
  { intros x. induction s as [|c s IH]; [split; reflexivity|].
    simpl in H. apply orb_false_elim in H as [Hc Hs].
    destruct (IH Hs) as [IH1 IH2].
    assert (c <> "~"%char) by (intros ->; discriminate Hc).
    rewrite !replaceAll2_skip by assumption. rewrite IH1, IH2. split; reflexivity. }
  rewrite (proj2 (E "1"%char)). apply E.
Qed.

(** X1: on a plain-object root the pointer is rejected as invalid exactly
    when it is not empty and does not start with a slash; the error names
    the pointer. *)
Theorem evaluate_InvalidPointer_iff :
  forall (h : heap) (D : JSValue) (P p' : string),
    isObject h D = true ->
    (evaluate h D (VStr P) = Err (InvalidPointer p')
     <-> p' = P /\ exists c rest, P = String c rest /\ c <> "/"%char).
Proof.
  intros h D P p' Hobj. rewrite evaluate_string. cbv zeta. rewrite Hobj. cbn [negb].
  pose proof (first_token_empty_iff P) as Hfirst.
  destruct (String.eqb_spec (nth 0 (map unescapeToken (Str.split "/" P)) EmptyString)
              EmptyString) as [E|E]; cbn [negb].
  - split.
    + intros H. apply reduce_err_inv in H as (acc & x & H).
      exfalso. exact (evaluateStep_not_InvalidPointer _ _ _ _ _ H).
    + intros (_ & c & rest & -> & Hc). exfalso.
      apply Hfirst in E as [E|(r & [= -> _])]; [discriminate E|contradiction].
  - split.
    + intros [= <-]. split; [reflexivity|].
      destruct P as [|c rest]; [exfalso; apply E; reflexivity|].
      exists c, rest. split; [reflexivity|]. intros ->. apply E. apply Hfirst. eauto.
    + intros (-> & _). reflexivity.
Qed.

Lemma evaluate_InvalidPointer_iff_witness :
  evaluate sampleHeap (VRef 0) (VStr "noLeadingSlash") = Err (InvalidPointer "noLeadingSlash").
Proof.
  apply (evaluate_InvalidPointer_iff sampleHeap (VRef 0)); [reflexivity|].
  split; [reflexivity|]. eexists _, _. split; [reflexivity|discriminate].
Defined.

(** X2: when the walk has reached a plain object, the next reference token
    yields the own member of that name, and fails with KeyNotFound naming
    the token when there is none. *)
Theorem evaluate_object_token :
  forall (h : heap) (D : JSValue) (P tok : string) (acc : JSValue),
    Str.contains "/" tok = false ->
    evaluate h D (VStr P) = Ok acc ->
    isObject h acc = true ->
    let t := unescapeToken tok in
    let result := evaluate h D (VStr (String.append P (String "/" tok))) in
    (forall v, lookupProp t (propsOf h acc) = Some v -> result = Ok v)
    /\ (lookupProp t (propsOf h acc) = None -> result = Err (KeyNotFound t)).
Proof.
  intros h D P tok acc Htok Hacc Hobj t result. subst result.
  rewrite (evaluate_snoc _ _ _ _ _ Htok Hacc). fold t.
  destruct (isObject_inv _ _ Hobj) as [Ht Ha].
  unfold evaluateStep, hasOwn, getProp. rewrite Ht, Ha, Hobj. cbn [negb].
  split.
  - intros v ->. reflexivity.
  - intros ->. reflexivity.
Qed.

Lemma evaluate_object_token_witness :
  evaluate sampleHeap (VRef 0) (VStr "/b/c") = Ok (VNum 2%float)
  /\ evaluate sampleHeap (VRef 0) (VStr "/b/x") = Err (KeyNotFound "x").
Proof.
  split.
  - apply (proj1 (evaluate_object_token sampleHeap (VRef 0) "/b"%string "c"%string
                    (VRef 1) eq_refl eq_refl eq_refl)). reflexivity.
  - apply (proj2 (evaluate_object_token sampleHeap (VRef 0) "/b"%string "x"%string
                    (VRef 1) eq_refl eq_refl eq_refl)). reflexivity.
Defined.

(** X3: when the walk has reached a primitive and a token remains, a falsy
    value (undefined, null, false, 0, NaN, the empty string) fails with
    the unresolved-pointer error naming the whole pointer, and a truthy one
    with UnresolvableToken naming the token. *)
Theorem evaluate_primitive_token :
  forall (h : heap) (D : JSValue) (P tok : string) (acc : JSValue),
    Str.contains "/" tok = false ->
    evaluate h D (VStr P) = Ok acc ->
    (forall l, acc <> VRef l) ->
    let pointer' := String.append P (String "/" tok) in
    (truthy acc = false ->
     evaluate h D (VStr pointer') = Err (UnresolvedPointer pointer'))
    /\ (truthy acc = true ->
        evaluate h D (VStr pointer') = Err (UnresolvableToken (unescapeToken tok))).
Proof.
  intros h D P tok acc Htok Hacc Hprim pointer'. subst pointer'.
  rewrite (evaluate_snoc _ _ _ _ _ Htok Hacc).
  destruct (primitive_not_container h acc Hprim) as [Ha Ho].
  unfold evaluateStep. rewrite Ha, Ho.
  split; intros ->; reflexivity.
Qed.

Lemma evaluate_primitive_token_witness :
  evaluate sampleHeap (VRef 0) (VStr "/a/x") = Err (UnresolvableToken "x")
  /\ evaluate [CObj [("z"%string, VNum 0%float)]] (VRef 0) (VStr "/z/x")
     = Err (UnresolvedPointer "/z/x").
Proof.
  split.
  - apply (proj2 (evaluate_primitive_token sampleHeap (VRef 0) "/a"%string "x"%string
                    (VNum 1%float) eq_refl eq_refl ltac:(discriminate))). reflexivity.
  - apply (proj1 (evaluate_primitive_token [CObj [("z"%string, VNum 0%float)]] (VRef 0)
                    "/z"%string "x"%string (VNum 0%float) eq_refl eq_refl
                    ltac:(discriminate))). reflexivity.
Defined.

Lemma string_append_nil_r s : String.append s EmptyString = s.
Proof. induction s as [|c s IH]; [reflexivity|]. simpl. now rewrite IH. Qed.

(** X4: array index tokens may carry leading zeros: once the walk has
    reached an Array, the token [0t] behaves exactly as the unsigned
    integer token [t], on success and on failure alike. *)
Theorem evaluate_leading_zero :
  forall (h : heap) (D : JSValue) (P t : string) (acc : JSValue),
    evaluate h D (VStr P) = Ok acc ->
    isArray h acc = true ->
    Str.isUnsignedInteger t = true ->
    evaluate h D (VStr (String.append P (String "/" (String "0" t))))
    = evaluate h D (VStr (String.append P (String "/" t))).
Proof.
  intros h D P t acc Hacc Harr Hint.
  assert (Hdigits : Str.allDigits t = true).
  { destruct t; [discriminate Hint|exact Hint]. }
  destruct (allDigits_no_special t Hdigits) as [Hslash Htilde].
  assert (Hslash0 : Str.contains "/" (String "0" t) = false) by (simpl; exact Hslash).
  assert (Htilde0 : Str.contains "~" (String "0" t) = false) by (simpl; exact Htilde).
  rewrite (evaluate_snoc _ _ _ _ _ Hslash0 Hacc), (evaluate_snoc _ _ _ _ _ Hslash Hacc).
  rewrite (unescapeToken_no_tilde _ Htilde0), (unescapeToken_no_tilde _ Htilde).
  assert (Htruthy : truthy acc = true).
  { unfold isArray, arrayOf in Harr. destruct acc; try discriminate Harr. reflexivity. }
  unfold evaluateStep. rewrite Htruthy, Harr. cbn [negb].
  change (Str.isUnsignedInteger (String "0" t)) with (Str.allDigits t).
  change (Str.parseInt (String "0" t)) with (Str.parseInt t).
  change (Str.digitsValue (String "0" t)) with (Str.digitsValue t).
  rewrite Hint, Hdigits. cbn [negb].
  destruct (String.eqb_spec t "-") as [E|_]; [rewrite E in Hint; discriminate Hint|].
  destruct t as [|c t']; [discriminate Hint|].
  destruct (String.eqb_spec (String "0" (String c t')) "-") as [E|_]; [discriminate E|].
  reflexivity.
Qed.

Lemma evaluate_leading_zero_witness :
  evaluate sampleHeap (VRef 0) (VStr "/b/d/01") = Ok (VNum 4%float).
Proof.
  exact (eq_trans
           (evaluate_leading_zero sampleHeap (VRef 0) "/b/d"%string "1"%string (VRef 2)
              eq_refl eq_refl eq_refl)
           eq_refl).
Defined.

(** X5: pointers compose: if [P] resolves in the document to a value and
    [Q] resolves in that value, then the concatenation [P ++ Q] resolves in
    the document to the same result. *)
Theorem evaluate_compose :
  forall (h : heap) (D : JSValue) (P Q : string) (acc v : JSValue),
    evaluate h D (VStr P) = Ok acc ->
    evaluate h acc (VStr Q) = Ok v ->
    evaluate h D (VStr (String.append P Q)) = Ok v.
Proof.
  intros h D P Q acc v HP HQ.
  rewrite evaluate_string in HQ. cbv zeta in HQ.
  destruct (negb (isObject h acc)); [discriminate HQ|].
  destruct (String.eqb_spec (nth 0 (map unescapeToken (Str.split "/" Q)) EmptyString)
              EmptyString) as [E|E]; cbn [negb] in HQ; [|discriminate HQ].
  apply first_token_empty_iff in E as [->|(rest & ->)].
  - injection HQ as <-. rewrite string_append_nil_r. exact HP.
  - change (Str.split "/" (String "/" rest)) with (EmptyString :: Str.split "/" rest) in HQ.
    cbn [map skipn] in HQ. rewrite drop_0 in HQ.
    rewrite evaluate_string in HP. rewrite evaluate_string. cbv zeta in HP |- *.
    rewrite split_app_sep, map_app.
    destruct (negb (isObject h D)); [discriminate HP|].
    pose proof (split_nonempty "/" P) as Hne.
    destruct (Str.split "/" P) as [|x more]; [contradiction|].
    cbn [map app nth skipn] in HP |- *.
    destruct (negb _); [discriminate HP|].
    rewrite drop_0 in HP |- *. rewrite reduce_app.
    rewrite (reduce_evaluateStep_ok_pointer _ _ _ _ _ _ HP). cbn [bindR].
    exact (reduce_evaluateStep_ok_pointer _ _ _ _ _ _ HQ).
Qed.

Lemma evaluate_compose_witness :
  evaluate sampleHeap (VRef 0) (VStr "/b/d/1") = Ok (VNum 4%float).
Proof.
  apply (evaluate_compose sampleHeap (VRef 0) "/b"%string "/d/1"%string (VRef 1));
    reflexivity.
Defined.

(** X6: [evaluate] returns only for a plain-object root and a string pointer
    that is empty or starts with a slash; in particular it never returns
    when the root is a string, a number, null, undefined or an Array. *)
Theorem evaluate_ok_inv :
  forall (h : heap) (D p v : JSValue),
    evaluate h D p = Ok v ->
    isObject h D = true
    /\ exists s, p = VStr s /\ (s = EmptyString \/ exists rest, s = String "/" rest).
Proof.
  intros h D p v H.
  destruct p; try discriminate H.
  rewrite evaluate_string in H. cbv zeta in H.
  destruct (isObject h D); [|discriminate H]. split; [reflexivity|].
  exists s. split; [reflexivity|]. apply first_token_empty_iff.
  destruct (String.eqb_spec (nth 0 (map unescapeToken (Str.split "/" s)) EmptyString)
              EmptyString) as [E|E]; [exact E|discriminate H].
Qed.

Lemma evaluate_ok_inv_witness :
  isObject sampleHeap (VRef 0) = true
  /\ exists s, VStr "/a" = VStr s /\ (s = EmptyString \/ exists rest, s = String "/" rest).
Proof.
  apply (evaluate_ok_inv sampleHeap (VRef 0) (VStr "/a") (VNum 1%float)). reflexivity.
Defined.

(** * Further properties of the helpers *)

Lemma nth_pred_length_last {A} (l : list A) d : nth (length l - 1) l d = List.last l d.
Proof.
  induction l as [|x [|y l] IH]; [reflexivity|reflexivity|].
  replace (length (x :: y :: l) - 1) with (S (length (y :: l) - 1)) by (simpl; lia).
  exact IH.
Qed.

(** X7: [interpretPath] on a pointer without a slash gives a single token
    and empty [key] and [parent]; appending one more reference token
    appends its unescaped form to the tokens, makes it the [key], and makes
    the previous last token the [parent]. *)
Theorem interpretPath_fields :
  (forall P : string,
      Str.contains "/" P = false ->
      exists info, interpretPath (VStr P) = Ok info
                   /\ paths info = [unescapeToken P]
                   /\ key info = EmptyString /\ parent info = EmptyString)
  /\ (forall (P tok : string) (info : PathInfo),
         Str.contains "/" tok = false ->
         interpretPath (VStr P) = Ok info ->
         exists info', interpretPath (VStr (String.append P (String "/" tok))) = Ok info'
                       /\ paths info' = paths info ++ [unescapeToken tok]
                       /\ key info' = unescapeToken tok
                       /\ parent info' = lastToken (paths info)).
Proof.
  split.
  - intros P HP. eexists. split; [reflexivity|].
    cbn [paths key parent]. rewrite (split_no_sep _ _ HP). repeat split.
  - intros P tok info Htok [= <-]. eexists. split; [reflexivity|].
    cbn [paths key parent].
    rewrite split_app_sep, (split_no_sep _ _ Htok), map_app. cbn [map].
    set (ps := map unescapeToken (Str.split "/" P)).
    assert (Hne : ps <> []).
    { subst ps. pose proof (split_nonempty "/" P).
      destruct (Str.split "/" P); [contradiction|discriminate]. }
    assert (Hlen : length (ps ++ [unescapeToken tok]) = S (length ps)).
    { rewrite length_app. simpl. lia. }
    rewrite Hlen. split; [reflexivity|].
    destruct ps as [|x ps'] eqn:E; [contradiction|]. rewrite <- E in *.
    assert (Hpos : 0 < length ps) by (rewrite E; simpl; lia).
    replace (1 <? S (length ps)) with true by (symmetry; apply Nat.ltb_lt; lia).
    replace (2 <=? S (length ps)) with true by (symmetry; apply Nat.leb_le; lia).
    split.
    + replace (S (length ps) - 1) with (length ps) by lia.
      apply nth_middle.
    + replace (S (length ps) - 2) with (length ps - 1) by lia.
      rewrite app_nth1 by lia. apply nth_pred_length_last.
Qed.

Lemma interpretPath_fields_witness :
  exists info', interpretPath (VStr "/b/d~1e") = Ok info'
                /\ paths info' = [""; "b"; "d/e"]%string
                /\ key info' = "d/e"%string
                /\ parent info' = "b"%string.
Proof.
  exact (proj2 interpretPath_fields "/b"%string "d~1e"%string _ eq_refl eq_refl).
Defined.

Lemma unescapeToken_cons_plain a r :
  a <> "~"%char -> unescapeToken (String a r) = String a (unescapeToken r).
Proof.
  intros Ha. unfold unescapeToken. rewrite !replaceAll2_skip by assumption. reflexivity.
Qed.

Lemma unescapeToken_tilde0 r :
  unescapeToken (String "~" (String "0" r)) = String "~" (unescapeToken r).
Proof.
  unfold unescapeToken.
  rewrite (replaceAll2_skip2 "~" "1" "/" "~" "0" r) by discriminate.
  rewrite (replaceAll2_skip "~" "1" "/" "0" r) by discriminate.
  rewrite replaceAll2_hit. reflexivity.
Qed.

Lemma unescapeToken_tilde1 r :
  unescapeToken (String "~" (String "1" r)) = String "/" (unescapeToken r).
Proof.
  unfold unescapeToken. rewrite (replaceAll2_hit "~" "1" "/" r). cbn [String.append].
  rewrite replaceAll2_skip by discriminate. reflexivity.
Qed.

(** X8: an escaped token is well formed: it contains no raw slash and each
    of its tildes is followed by [0] or [1]. *)
Theorem escapeToken_wellEscaped :
  forall s : string,
    wellEscaped (escapeToken s) = true /\ Str.contains "/" (escapeToken s) = false.
Proof.
  intros s. split; [|apply escapeToken_no_slash].
  induction s as [|c s IH]; [reflexivity|].
  rewrite escapeToken_cons. unfold escapeChar.
  destruct (Ascii.eqb_spec c "~") as [->|Hc]; [exact IH|].
  destruct (Ascii.eqb_spec c "/") as [->|Hc']; [exact IH|].
  cbn [String.append wellEscaped].
  destruct (Ascii.eqb_spec c "/"); [contradiction|].
  destruct (Ascii.eqb_spec c "~"); [contradiction|exact IH].
Qed.

(** X9: on well-formed tokens the round trip holds in the other direction
    too: unescaping and escaping again gives the token back. *)
Theorem escapeToken_unescapeToken :
  forall t : string, wellEscaped t = true -> escapeToken (unescapeToken t) = t.
Proof.
  intros t.
  cut (forall n t, String.length t <= n -> wellEscaped t = true ->
                   escapeToken (unescapeToken t) = t).
  { intros H. apply (H (String.length t)). lia. }
  clear t. induction n as [|n IH]; intros t Hn Hw.
  - destruct t; [reflexivity|simpl in Hn; lia].
  - destruct t as [|a rest]; [reflexivity|].
    cbn [wellEscaped] in Hw. simpl in Hn.
    destruct (Ascii.eqb_spec a "/") as [->|Hslash]; [discriminate Hw|].
    destruct (Ascii.eqb_spec a "~") as [->|Htilde].
    + destruct rest as [|b rest']; [discriminate Hw|].
      apply andb_prop in Hw as [Hb Hw]. simpl in Hn.
      assert (IH' : escapeToken (unescapeToken rest') = rest') by (apply IH; [lia|exact Hw]).
      apply orb_prop in Hb as [Hb|Hb]; apply Ascii.eqb_eq in Hb; subst b.
      * rewrite unescapeToken_tilde0, escapeToken_cons, IH'. reflexivity.
      * rewrite unescapeToken_tilde1, escapeToken_cons, IH'. reflexivity.
    + rewrite unescapeToken_cons_plain by assumption.
      rewrite escapeToken_cons, IH by (try lia; exact Hw).
      unfold escapeChar.
      destruct (Ascii.eqb_spec a "~"); [contradiction|].
      destruct (Ascii.eqb_spec a "/"); [contradiction|reflexivity].
Qed.

Lemma escapeToken_unescapeToken_witness :
  escapeToken (unescapeToken "a~1b~0c~01") = "a~1b~0c~01"%string.
Proof. apply escapeToken_unescapeToken. reflexivity. Defined.

(** X10: a name without slash and tilde needs no escaping: both
    [escapeToken] and [unescapeToken] leave it as it is. *)
Theorem escape_plain_identity :
  forall s : string,
    Str.contains "/" s = false -> Str.contains "~" s = false ->
    escapeToken s = s /\ unescapeToken s = s.
Proof.
  intros s Hslash Htilde. split; [|apply unescapeToken_no_tilde; exact Htilde].
  induction s as [|c s IH]; [reflexivity|].
  simpl in Hslash, Htilde.
  apply orb_false_elim in Hslash as [Hc1 Hs1].
  apply orb_false_elim in Htilde as [Hc2 Hs2].
  rewrite escapeToken_cons, (IH Hs1 Hs2). unfold escapeChar. rewrite Hc1, Hc2. reflexivity.
Qed.

Lemma escape_plain_identity_witness :
  escapeToken "newKey" = "newKey"%string /\ unescapeToken "newKey" = "newKey"%string.
Proof. apply escape_plain_identity; reflexivity. Defined.

(** X11: [escapeToken] is injective: different names never share an
    escaped token. *)
Theorem escapeToken_injective :
  forall s1 s2 : string, escapeToken s1 = escapeToken s2 -> s1 = s2.
Proof.
  intros s1 s2 H.
  rewrite <- (unescape_escape s1), <- (unescape_escape s2), H. reflexivity.
Qed.

Lemma escapeToken_injective_witness : "a/b"%string = "a/b"%string.
Proof. apply escapeToken_injective. reflexivity. Defined.

(** * Further properties of the equality comparator *)

Lemma isEqualFuel_S fuel h a b :
  isEqualFuel (S fuel) h a b
  = if strictEq a b then Ok true
    else if isNaN a && isNaN b then Ok true
    else if negb (JSType_eqb (typeof a) (typeof b)) then Ok false
    else match arrayOf h a with
         | Some xs =>
             match arrayOf h b with
             | None => Ok false
             | Some ys =>
                 if negb (length xs =? length ys) then Ok false
                 else every (fun '(idx, val) =>
                               isEqualFuel fuel h val (default VUndefined (ys !! idx)))
                            (imap pair xs)
             end
         | None =>
             if isObject h a && isObject h b then
               if negb (length (keys h a) =? length (keys h b)) then Ok false
               else every (fun key =>
                             if hasOwn h b key
                             then isEqualFuel fuel h (getProp h a key) (getProp h b key)
                             else Ok false)
                          (keys h a)
             else Ok false
         end.
Proof. reflexivity. Qed.

Lemma strictEq_refl_or_nan a : strictEq a a = true \/ isNaN a = true.
Proof.
  destruct a; simpl; auto.
  - left. apply eqb_reflx.
  - unfold PrimFloat.is_nan. destruct (PrimFloat.eqb n n); auto.
  - left. apply String.eqb_refl.
  - left. apply Nat.eqb_refl.
Qed.

Lemma isEqualFuel_refl fuel h a : isEqualFuel (S fuel) h a a = Ok true.
Proof.
  rewrite isEqualFuel_S.
  destruct (strictEq_refl_or_nan a) as [-> | ->]; [reflexivity|].
  destruct (strictEq a a); reflexivity.
Qed.

Lemma strictEq_typeof a b : strictEq a b = true -> JSType_eqb (typeof a) (typeof b) = true.
Proof. destruct a, b; simpl; congruence. Qed.

Lemma isNaN_typeof a b :
  isNaN a = true -> isNaN b = true -> JSType_eqb (typeof a) (typeof b) = true.
Proof. destruct a, b; simpl; congruence. Qed.

Lemma every_true_inv {A} (f : A -> Result bool) xs :
  every f xs = Ok true -> Forall (fun x => f x = Ok true) xs.
Proof.
  induction xs as [|x xs IH]; simpl; [constructor|].
  destruct (f x) as [[|]|e] eqn:E; try discriminate.
  intros H. constructor; auto.
Qed.

Lemma every_true_intro {A} (f : A -> Result bool) xs :
  Forall (fun x => f x = Ok true) xs -> every f xs = Ok true.
Proof.
  induction 1 as [|x xs Hx _ IH]; simpl; [reflexivity|]. rewrite Hx. exact IH.
Qed.

(** X12: [isEqual] is reflexive on every value, NaN and cyclic structures
    included: a value always equals itself. *)
Theorem isEqual_refl :
  forall (h : heap) (a : JSValue), isEqual h a a = Ok true.
Proof. intros h a. unfold isEqual. apply isEqualFuel_refl. Qed.

(** X13: [isEqual] never coerces: values of different run-time types
    (a number and a string, null and undefined, an object and a boolean)
    are unequal. *)
Theorem isEqual_type_mismatch :
  forall (h : heap) (a b : JSValue),
    typeof a <> typeof b -> isEqual h a b = Ok false.
Proof.
  intros h a b Hty. unfold isEqual. rewrite isEqualFuel_S.
  assert (Hneq : JSType_eqb (typeof a) (typeof b) = false).
  { destruct (typeof a), (typeof b); try reflexivity; exfalso; apply Hty; reflexivity. }
  destruct (strictEq a b) eqn:Es.
  { apply strictEq_typeof in Es. congruence. }
  destruct (isNaN a) eqn:Ea, (isNaN b) eqn:Eb; cbn [andb];
    try (rewrite Hneq; reflexivity).
  pose proof (isNaN_typeof _ _ Ea Eb). congruence.
Qed.

Lemma isEqual_type_mismatch_witness :
  isEqual [] (VNum 42%float) (VStr "42") = Ok false.
Proof. apply isEqual_type_mismatch. discriminate. Defined.

(** X14: on primitives [isEqual] is strict equality, except that NaN
    equals NaN. *)
Theorem isEqual_on_primitives :
  forall (h : heap) (a b : JSValue),
    (forall l, a <> VRef l) -> (forall l, b <> VRef l) ->
    isEqual h a b = Ok (strictEq a b || (isNaN a && isNaN b)).
Proof.
  intros h a b Ha Hb. unfold isEqual. rewrite isEqualFuel_S.
  destruct (strictEq a b); [reflexivity|]. cbn [orb].
  destruct (isNaN a && isNaN b); [reflexivity|].
  destruct (negb _); [reflexivity|].
  destruct (primitive_not_container h a Ha) as [Haa Hao].
  unfold isArray in Haa. destruct (arrayOf h a); [discriminate Haa|].
  rewrite Hao. reflexivity.
Qed.

Lemma isEqual_on_primitives_witness :
  isEqual [] (VNum nan) (VNum nan) = Ok true /\ isEqual [] (VNum 0%float) (VNum (-0)%float) = Ok true.
Proof.
  split.
  - exact (isEqual_on_primitives [] (VNum nan) (VNum nan) ltac:(discriminate) ltac:(discriminate)).
  - exact (isEqual_on_primitives [] (VNum 0%float) (VNum (-0)%float)
             ltac:(discriminate) ltac:(discriminate)).
Defined.

(** X15: two different containers of different shape are unequal: arrays of
    different lengths, an array and a plain object, and plain objects with
    different numbers of keys. *)
Theorem isEqual_shape_mismatch :
  forall (h : heap) (a b : JSValue),
    strictEq a b = false ->
    (forall xs ys, arrayOf h a = Some xs -> arrayOf h b = Some ys ->
                   length xs <> length ys -> isEqual h a b = Ok false)
    /\ (isArray h a = true -> isObject h b = true -> isEqual h a b = Ok false)
    /\ (isObject h a = true -> isArray h b = true -> isEqual h a b = Ok false)
    /\ (isObject h a = true -> isObject h b = true ->
        length (keys h a) <> length (keys h b) -> isEqual h a b = Ok false).
Proof.
  intros h a b Hneq. unfold isEqual. rewrite isEqualFuel_S, Hneq.
  assert (Hnan : forall v, isArray h v = true \/ isObject h v = true -> isNaN v = false).
  { intros v [H|H]; destruct v; try reflexivity; discriminate H. }
  repeat split.
  - intros xs ys Ha Hb Hlen.
    rewrite (Hnan a) by (left; unfold isArray; rewrite Ha; reflexivity). cbn [andb].
    destruct (negb _); [reflexivity|]. rewrite Ha, Hb.
    destruct (Nat.eqb_spec (length xs) (length ys)); [contradiction|reflexivity].
  - intros Ha Hb. rewrite (Hnan a) by auto. cbn [andb].
    destruct (negb _); [reflexivity|].
    destruct (isObject_inv _ _ Hb) as [_ Hb'].
    unfold isArray in Ha, Hb'.
    destruct (arrayOf h a); [|discriminate Ha].
    destruct (arrayOf h b); [discriminate Hb'|reflexivity].
  - intros Ha Hb. rewrite (Hnan a) by auto. cbn [andb].
    destruct (negb _); [reflexivity|].
    destruct (isObject_inv _ _ Ha) as [_ Ha'].
    unfold isArray in Ha'. destruct (arrayOf h a); [discriminate Ha'|].
    rewrite (isArray_not_isObject _ _ Hb), andb_false_r. reflexivity.
  - intros Ha Hb Hlen. rewrite (Hnan a) by auto. cbn [andb].
    destruct (negb _); [reflexivity|].
    destruct (isObject_inv _ _ Ha) as [_ Ha'].
    unfold isArray in Ha'. destruct (arrayOf h a); [discriminate Ha'|].
    rewrite Ha, Hb. cbn [andb].
    destruct (Nat.eqb_spec (length (keys h a)) (length (keys h b)));
      [contradiction|reflexivity].
Qed.

Lemma isEqual_shape_mismatch_witness :
  isEqual [CArr [VNull]; CArr []; CObj []] (VRef 0) (VRef 1) = Ok false
  /\ isEqual [CArr [VNull]; CArr []; CObj []] (VRef 1) (VRef 2) = Ok false.
Proof.
  split.
  - apply (proj1 (isEqual_shape_mismatch [CArr [VNull]; CArr []; CObj []]
                    (VRef 0) (VRef 1) eq_refl) [VNull] []); [reflexivity|reflexivity|].
    discriminate.
  - apply (proj1 (proj2 (isEqual_shape_mismatch [CArr [VNull]; CArr []; CObj []]
                           (VRef 1) (VRef 2) eq_refl))); reflexivity.
Defined.

(** X16: a positive answer of [isEqual] is sound: the two values have the
    same structure, with no tolerance for extra or missing keys or for
    elements that differ. *)
Theorem isEqual_sound :
  forall (h : heap) (a b : JSValue),
    isEqual h a b = Ok true -> sameValue h a b.
Proof.
  intros h. unfold isEqual. generalize (S (length h)) as fuel.
  induction fuel as [|fuel IH]; intros a b; [discriminate|].
  rewrite isEqualFuel_S.
  destruct (strictEq a b) eqn:Es; [intros _; apply same_strict; exact Es|].
  destruct (isNaN a) eqn:Ea, (isNaN b) eqn:Eb; cbn [andb];
    try (intros _; apply same_nan; assumption).
  all: destruct (negb _); [discriminate|].
  all: destruct (arrayOf h a) as [xs|] eqn:Ha.
  all: try (destruct (arrayOf h b) as [ys|] eqn:Hb; [|discriminate];
            destruct (Nat.eqb_spec (length xs) (length ys)) as [Hlen|]; [|discriminate];
            cbn [negb]; intros H; apply every_true_inv in H;
            apply (same_array h a b xs ys Ha Hb);
            apply Forall2_same_length_lookup_2; [exact Hlen|];
            intros i x y Hx Hy;
            rewrite Forall_forall in H;
            specialize (H (i, x)); cbn beta iota in H; rewrite Hy in H;
            apply IH, H, elem_of_lookup_imap; eauto).
  all: destruct (isObject h a) eqn:Hoa; [|discriminate].
  all: destruct (isObject h b) eqn:Hob; [|discriminate].
  all: cbn [andb].
  all: destruct (Nat.eqb_spec (length (keys h a)) (length (keys h b))) as [Hlen|];
         [|discriminate].
  all: cbn [negb]; intros H; apply every_true_inv in H.
  all: apply same_object; try assumption.
  all: intros k Hk; rewrite Forall_forall in H.
  all: specialize (H k (proj2 (list_elem_of_In _ _) Hk)); cbn beta in H.
  all: destruct (hasOwn h b k); [|discriminate H].
  all: split; [reflexivity|apply IH; exact H].
Qed.

Lemma isEqual_sound_witness :
  sameValue (initialHeap ++ initialHeap) (VRef 3) (VRef 7).
Proof. apply isEqual_sound. reflexivity. Defined.

Lemma lookupProp_In props k v :
  NoDup (map fst props) -> (lookupProp k props = Some v <-> In (k, v) props).
Proof.
  induction props as [|[k0 v0] props IH]; simpl; intros Hnd.
  - split; [discriminate|contradiction].
  - apply NoDup_cons in Hnd as [Hnotin Hnd].
    destruct (String.eqb_spec k0 k) as [->|Hne].
    + split.
      * intros [= ->]. left. reflexivity.
      * intros [[= ->]|Hin]; [reflexivity|].
        exfalso. apply Hnotin. apply list_elem_of_In.
        apply (in_map fst) in Hin. exact Hin.
    + rewrite (IH Hnd). split; [auto|].
      intros [[= -> _]|Hin]; [contradiction|exact Hin].
Qed.

Lemma lookupProp_permutation pa pb k :
  NoDup (map fst pa) -> Permutation pa pb -> lookupProp k pa = lookupProp k pb.
Proof.
  intros Hnd Hperm.
  assert (Hnd' : NoDup (map fst pb)).
  { apply NoDup_ListNoDup. apply NoDup_ListNoDup in Hnd.
    eapply Permutation_NoDup; [|exact Hnd]. apply Permutation_map. exact Hperm. }
  destruct (lookupProp k pa) as [v|] eqn:Ea.
  - symmetry. apply (lookupProp_In _ _ _ Hnd'). eapply Permutation_in; [exact Hperm|].
    apply (lookupProp_In _ _ _ Hnd). exact Ea.
  - destruct (lookupProp k pb) as [v|] eqn:Eb; [|reflexivity].
    apply (lookupProp_In _ _ _ Hnd') in Eb.
    apply (Permutation_in _ (Permutation_sym Hperm)) in Eb.
    apply (lookupProp_In _ _ _ Hnd) in Eb. congruence.
Qed.

(** X17: the order of the keys is irrelevant: two different plain objects
    whose members are the same up to order are equal. *)
Theorem isEqual_key_order :
  forall (h : heap) (la lb : loc) (pa pb : list (string * JSValue)),
    h !! la = Some (CObj pa) ->
    h !! lb = Some (CObj pb) ->
    NoDup (map fst pa) ->
    Permutation pa pb ->
    isEqual h (VRef la) (VRef lb) = Ok true.
Proof.
  intros h la lb pa pb Ha Hb Hnd Hperm.
  unfold isEqual. rewrite isEqualFuel_S.
  destruct (strictEq (VRef la) (VRef lb)); [reflexivity|].
  cbn [isNaN andb typeof JSType_eqb negb].
  assert (Hoa : isObject h (VRef la) = true).
  { unfold isObject, isArray, arrayOf. rewrite Ha. reflexivity. }
  assert (Hob : isObject h (VRef lb) = true).
  { unfold isObject, isArray, arrayOf. rewrite Hb. reflexivity. }
  assert (Hka : keys h (VRef la) = map fst pa).
  { unfold keys, propsOf. rewrite Ha. reflexivity. }
  assert (Hkb : keys h (VRef lb) = map fst pb).
  { unfold keys, propsOf. rewrite Hb. reflexivity. }
  unfold arrayOf at 1. rewrite Ha, Hoa, Hob, Hka, Hkb. cbn [andb].
  rewrite !length_map, (Permutation_length Hperm), Nat.eqb_refl. cbn [negb].
  apply every_true_intro. apply Forall_forall. intros k Hk.
  apply list_elem_of_In, in_map_iff in Hk as ([k' v] & <- & Hin). cbn [fst].
  assert (Hla : lookupProp k' pa = Some v) by (apply lookupProp_In; assumption).
  assert (Hlb : lookupProp k' pb = Some v).
  { rewrite <- (lookupProp_permutation pa pb k' Hnd Hperm). exact Hla. }
  unfold hasOwn, getProp, propsOf. rewrite Ha, Hb, Hla, Hlb. cbn [default].
  destruct (length h) eqn:El.
  - apply lookup_lt_Some in Ha. lia.
  - apply isEqualFuel_refl.
Qed.

Lemma isEqual_key_order_witness :
  isEqual [CObj [("b"%string, VNum 2%float); ("c"%string, VNum 3%float)];
           CObj [("c"%string, VNum 3%float); ("b"%string, VNum 2%float)]]
    (VRef 0) (VRef 1) = Ok true.
Proof.
  eapply isEqual_key_order; [reflexivity|reflexivity| |].
  - repeat constructor; simpl; intros H; inversion H; subst;
      try discriminate; try match goal with H' : _ ∈ _ |- _ => inversion H' end.
  - apply perm_swap.
Defined.

(** * Further properties of the patch operations *)

Lemma tokens_nonempty path : tokens path <> [].
Proof.
  unfold tokens. pose proof (split_nonempty "/" path).
  destruct (Str.split "/" path); [contradiction|discriminate].
Qed.

Lemma tokens_snoc P tok :
  Str.contains "/" tok = false ->
  tokens (String.append P (String "/" tok)) = tokens P ++ [unescapeToken tok].
Proof.
  intros Htok. unfold tokens.
  rewrite split_app_sep, (split_no_sep _ _ Htok), map_app. reflexivity.
Qed.

Lemma tokens_first path : nth 0 (tokens path) EmptyString = EmptyString <-> rooted path.
Proof. apply first_token_empty_iff. Qed.

(** Only the empty path has the single token [""]. *)
Lemma tokens_root path :
  nth 0 (tokens path) EmptyString = EmptyString /\ length (tokens path) = 1
  <-> path = EmptyString.
Proof.
  split; [|intros ->; split; reflexivity].
  intros [Hfirst Hlen]. apply tokens_first in Hfirst as [->|(rest & ->)]; [reflexivity|].
  exfalso. unfold tokens in Hlen.
  change (Str.split "/" (String "/" rest)) with (EmptyString :: Str.split "/" rest) in Hlen.
  pose proof (split_nonempty "/" rest).
  destruct (Str.split "/" rest); [contradiction|discriminate Hlen].
Qed.

Lemma tokens_snoc_rooted P tok :
  Str.contains "/" tok = false -> rooted P ->
  let ps := tokens (String.append P (String "/" tok)) in
  nth 0 ps EmptyString = EmptyString
  /\ (length ps =? 1) = false
  /\ lastToken ps = unescapeToken tok
  /\ withoutLast ps = tokens P.
Proof.
  intros Htok HP ps. subst ps. rewrite (tokens_snoc _ _ Htok).
  apply tokens_first in HP. pose proof (tokens_nonempty P) as Hne.
  destruct (tokens P) as [|x more] eqn:E; [contradiction|].
  rewrite <- E. repeat split.
  - rewrite E. exact HP.
  - rewrite E, length_app. simpl. apply Nat.eqb_neq. lia.
  - unfold lastToken. apply last_last.
  - unfold withoutLast. apply removelast_last.
Qed.

(** [add] and [remove] as decision chains over the tokens of the path; [h1]
    is the store after the clone, [e] the error of the call of
    [evaluate]. *)
Lemma add_eq object path value h :
  exists objectClone h1 e,
    structuredClone object h = (Ok objectClone, h1) /\ unchanged h h1
    /\ (e = TypeError \/ e = RootNotObject)
    /\ add object path value h
       = if negb (String.eqb (nth 0 (tokens path) EmptyString) EmptyString)
         then (Err (InvalidPointer path), h1)
         else if length (tokens path) =? 1
              then (Ok (VRef (length h1)), h1 ++ [CObj [("value"%string, value)]])
              else if String.eqb (lastToken (tokens path)) EmptyString
                   then (Err (InvalidLastToken path), h1)
                   else (Err e, h1).
Proof.
  destruct (structuredClone_spec object h) as (objectClone & h1 & E & U).
  destruct (evaluateM_pointer_first (Str.join "/" (withoutLast (tokens path)))
              objectClone h1) as (e & Ee & He).
  exists objectClone, h1, e. repeat (split; [assumption|]).
  unfold add. cbn [interpretPath].
  erewrite bind_ok by reflexivity.
  erewrite bind_ok by exact E. cbn [paths truthy]. fold (tokens path).
  destruct (negb (String.eqb (nth 0 _ _) _)); [reflexivity|].
  destruct (length _ =? 1); [reflexivity|].
  destruct (String.eqb (lastToken _) _); cbn [negb]; [reflexivity|].
  erewrite bind_err by exact Ee. reflexivity.
Qed.

Lemma remove_eq object path h :
  exists objectClone h1 e,
    structuredClone object h = (Ok objectClone, h1) /\ unchanged h h1
    /\ (e = TypeError \/ e = RootNotObject)
    /\ remove object path h
       = if negb (String.eqb (nth 0 (tokens path) EmptyString) EmptyString)
         then (Err (InvalidPointer path), h1)
         else if length (tokens path) =? 1
              then (Ok (VRef (length h1)), h1 ++ [CObj []])
              else if String.eqb (lastToken (tokens path)) EmptyString
                   then (Ok object, h1)
                   else if String.eqb (lastToken (tokens path)) "-"
                        then (Err (InvalidRemovePointer path), h1)
                        else (Err e, h1).
Proof.
  destruct (structuredClone_spec object h) as (objectClone & h1 & E & U).
  destruct (evaluateM_pointer_first (Str.join "/" (withoutLast (tokens path)))
              objectClone h1) as (e & Ee & He).
  exists objectClone, h1, e. repeat (split; [assumption|]).
  unfold remove. cbn [interpretPath].
  erewrite bind_ok by reflexivity.
  erewrite bind_ok by exact E. cbn [paths truthy]. fold (tokens path).
  destruct (negb (String.eqb (nth 0 _ _) _)); [reflexivity|].
  destruct (length _ =? 1); [reflexivity|].
  destruct (String.eqb (lastToken _) EmptyString); cbn [negb]; [reflexivity|].
  destruct (String.eqb (lastToken _) "-"); [reflexivity|].
  erewrite bind_err by exact Ee. reflexivity.
Qed.

Lemma not_rooted_first c rest :
  c <> "/"%char ->
  String.eqb (nth 0 (tokens (String c rest)) EmptyString) EmptyString = false.
Proof.
  intros Hc. apply String.eqb_neq. intros H.
  apply tokens_first in H as [H|(r & [= -> _])]; [discriminate H|contradiction].
Qed.

(** X18: a path that does not start with a slash (and is not empty) is
    rejected by [add], [remove] and [replace] with InvalidPointer naming
    the path. *)
Theorem patch_invalid_pointer :
  forall (D : JSValue) (c : ascii) (rest : string) (value : JSValue) (h : heap),
    c <> "/"%char ->
    fst (add D (String c rest) value h) = Err (InvalidPointer (String c rest))
    /\ fst (remove D (String c rest) h) = Err (InvalidPointer (String c rest))
    /\ fst (replace D (String c rest) value h) = Err (InvalidPointer (String c rest)).
Proof.
  intros D c rest value h Hc.
  pose proof (not_rooted_first c rest Hc) as Hfirst.
  destruct (add_eq D (String c rest) value h) as (oc & h1 & e & _ & _ & _ & Eadd).
  destruct (remove_eq D (String c rest) h) as (oc' & h1' & e' & _ & _ & _ & Erem).
  rewrite Hfirst in Eadd, Erem. cbn [negb] in Eadd, Erem.
  split; [rewrite Eadd; reflexivity|].
  split; [rewrite Erem; reflexivity|].
  unfold replace. erewrite bind_err by exact Erem. reflexivity.
Qed.

Lemma patch_invalid_pointer_witness :
  fst (add (VRef 0) "b/newKey" (VNum 42%float) initialHeap) = Err (InvalidPointer "b/newKey").
Proof.
  apply (patch_invalid_pointer (VRef 0) "b" "/newKey" (VNum 42%float) initialHeap).
  discriminate.
Defined.

(** X19: [remove] at the empty path returns a newly allocated empty plain
    object whatever the document is (an Array root as well), and touches no
    existing cell. *)
Theorem remove_root_empties :
  forall (D : JSValue) (h : heap),
    exists (l : loc) (h' : heap),
      remove D "" h = (Ok (VRef l), h')
      /\ h !! l = None
      /\ h' !! l = Some (CObj [])
      /\ unchanged h h'.
Proof.
  intros D h.
  destruct (remove_eq D EmptyString h) as (oc & h1 & e & _ & U & _ & E).
  exists (length h1), (h1 ++ [CObj []]).
  split; [exact E|]. split; [|split].
  - apply lookup_ge_None. apply unchanged_length. exact U.
  - apply lookup_app_new.
  - eapply unchanged_trans; [exact U|apply unchanged_app].
Qed.

(** X20: [remove] rejects a rooted path whose last token is [-] with its
    own error, before it looks at the document. *)
Theorem remove_dash_rejected :
  forall (D : JSValue) (P : string) (h : heap),
    rooted P ->
    fst (remove D (String.append P "/-") h)
    = Err (InvalidRemovePointer (String.append P "/-")).
Proof.
  intros D P h HP.
  destruct (remove_eq D (String.append P "/-") h) as (oc & h1 & e & _ & _ & _ & E).
  destruct (tokens_snoc_rooted P "-" eq_refl HP) as (H1 & H2 & H3 & _).
  rewrite H1, H2, H3 in E. rewrite E. reflexivity.
Qed.

Lemma remove_dash_rejected_witness :
  fst (remove (VRef 0) "/e/-" initialHeap) = Err (InvalidRemovePointer "/e/-").
Proof.
  apply (remove_dash_rejected (VRef 0) "/e"%string initialHeap). right. eexists. reflexivity.
Defined.

(** X21: on a rooted path that ends with a slash (an empty last token, as
    in [/] or [/a/]) [remove] returns the very document it was given,
    while [add] and [replace] fail with the invalid-pointer error for the
    last token. *)
Theorem trailing_slash_path :
  forall (D : JSValue) (P : string) (value : JSValue) (h : heap),
    rooted P ->
    let path := String.append P "/" in
    (exists h1, remove D path h = (Ok D, h1) /\ unchanged h h1)
    /\ fst (add D path value h) = Err (InvalidLastToken path)
    /\ fst (replace D path value h) = Err (InvalidLastToken path).
Proof.
  intros D P value h HP path. subst path.
  destruct (tokens_snoc_rooted P EmptyString eq_refl HP) as (H1 & H2 & H3 & _).
  change (unescapeToken EmptyString) with EmptyString in H3.
  assert (Hadd : forall D' h', fst (add D' (String.append P "/") value h')
                               = Err (InvalidLastToken (String.append P "/"))).
  { intros D' h'.
    destruct (add_eq D' (String.append P "/") value h') as (oc & h1 & e & _ & _ & _ & E).
    rewrite H1, H2, H3 in E. rewrite E. reflexivity. }
  destruct (remove_eq D (String.append P "/") h) as (oc & h1 & e & _ & U & _ & E).
  rewrite H1, H2, H3 in E. cbn [negb String.eqb] in E.
  split; [eauto|]. split; [apply Hadd|].
  unfold replace. erewrite bind_ok by exact E. apply Hadd.
Qed.

Lemma trailing_slash_path_witness :
  fst (remove (VRef 0) "/" initialHeap) = Ok (VRef 0)
  /\ fst (add (VRef 0) "/b/" VNull initialHeap) = Err (InvalidLastToken "/b/").
Proof.
  split.
  - destruct (trailing_slash_path (VRef 0) EmptyString VNull initialHeap
                (or_introl eq_refl)) as ((h1 & Heq & _) & _).
    exact (f_equal fst Heq).
  - apply (trailing_slash_path (VRef 0) "/b"%string VNull initialHeap).
    right. eexists. reflexivity.
Defined.

(** X22: [replace] at the empty path discards the document and returns a
    newly allocated object whose only member is [value], bound to the given
    value. *)
Theorem replace_root_wraps :
  forall (D v : JSValue) (h : heap),
    exists (l : loc) (h' : heap),
      replace D "" v h = (Ok (VRef l), h')
      /\ h !! l = None
      /\ h' !! l = Some (CObj [("value"%string, v)])
      /\ unchanged h h'.
Proof.
  intros D v h.
  destruct (remove_eq D EmptyString h) as (oc & h1 & e & _ & U & _ & E).
  cbn in E.
  destruct (add_eq (VRef (length h1)) EmptyString v (h1 ++ [CObj []]))
    as (oc' & h2 & e' & _ & U' & _ & E').
  cbn in E'.
  exists (length h2), (h2 ++ [CObj [("value"%string, v)]]).
  assert (U2 : unchanged h h2).
  { eapply unchanged_trans; [exact U|].
    eapply unchanged_trans; [apply unchanged_app|exact U']. }
  split; [|split; [|split]].
  - unfold replace. erewrite bind_ok by exact E. exact E'.
  - apply lookup_ge_None. apply unchanged_length. exact U2.
  - apply lookup_app_new.
  - eapply unchanged_trans; [exact U2|apply unchanged_app].
Qed.

Lemma join_split sep s : Str.join (String sep EmptyString) (Str.split sep s) = s.
Proof.
  induction s as [|c s IH]; [reflexivity|]. simpl.
  pose proof (split_nonempty sep s) as Hne.
  destruct (Ascii.eqb_spec c sep) as [->|Hc].
  - destruct (Str.split sep s) as [|x more]; [contradiction|].
    change (Str.join (String sep EmptyString) (EmptyString :: x :: more))
      with (String sep (Str.join (String sep EmptyString) (x :: more))).
    rewrite IH. reflexivity.
  - destruct (Str.split sep s) as [|x [|y more]]; [contradiction| |].
    + simpl in *. rewrite IH. reflexivity.
    + change (Str.join (String sep EmptyString) (String c x :: y :: more))
        with (String c (Str.join (String sep EmptyString) (x :: y :: more))).
      rewrite IH. reflexivity.
Qed.

Lemma join_snoc sep xs y :
  xs <> [] ->
  Str.join sep (xs ++ [y]) = String.append (Str.join sep xs) (String.append sep y).
Proof.
  induction xs as [|x [|x' xs] IH]; intros Hne; [contradiction|reflexivity|].
  change (Str.join sep ((x :: x' :: xs) ++ [y]))
    with (String.append x (String.append sep (Str.join sep ((x' :: xs) ++ [y])))).
  rewrite IH by discriminate.
  change (Str.join sep (x :: x' :: xs))
    with (String.append x (String.append sep (Str.join sep (x' :: xs)))).
  rewrite !string_append_assoc. reflexivity.
Qed.

(** A rooted path of several tokens whose last token is empty ends with a
    slash. *)
Lemma tokens_last_empty path :
  nth 0 (tokens path) EmptyString = EmptyString ->
  (length (tokens path) =? 1) = false ->
  lastToken (tokens path) = EmptyString ->
  exists P, rooted P /\ path = String.append P "/".
Proof.
  intros Hfirst Hlen Hlast. apply tokens_first in Hfirst.
  unfold tokens in Hlen, Hlast.
  destruct (exists_last (split_nonempty "/" path)) as (xs & y & E).
  rewrite E, map_app in Hlen, Hlast. cbn [map] in Hlen, Hlast.
  unfold lastToken in Hlast. rewrite last_last in Hlast.
  apply (proj1 (unescapeToken_empty_iff y)) in Hlast. subst y.
  assert (Hxs : xs <> []).
  { intros ->. discriminate Hlen. }
  assert (Hpath : path = String.append (Str.join "/" xs) "/").
  { rewrite <- (join_split "/" path) at 1. rewrite E. apply (join_snoc "/" xs EmptyString Hxs). }
  exists (Str.join "/" xs). split; [|exact Hpath].
  destruct (Str.join "/" xs) as [|c P']; [left; reflexivity|].
  right. rewrite Hpath in Hfirst. destruct Hfirst as [H|(rest & [= -> _])]; [discriminate H|].
  eauto.
Qed.

(** X23: which calls return at all.  Since the patch operations call
    [evaluate] with the pointer first, every call that reaches it throws:
    [add] and [replace] return exactly for the empty path, [remove] exactly
    for the empty path and for rooted paths ending with a slash, [copy]
    exactly when [from] equals [path], and [move] and [test] never. *)
Theorem patch_operations_return_iff :
  forall (D : JSValue) (h : heap),
    (forall path value, returns (add D path value) h <-> path = EmptyString)
    /\ (forall path,
           returns (remove D path) h
           <-> path = EmptyString \/ exists P, rooted P /\ path = String.append P "/")
    /\ (forall path value, returns (replace D path value) h <-> path = EmptyString)
    /\ (forall from path, returns (copy D from path) h <-> from = path)
    /\ (forall from path, ~ returns (move D from path) h)
    /\ (forall path value, ~ returns (test D path value) h).
Proof.
  intros D h.
  assert (Hadd : forall D' h' path value,
             returns (add D' path value) h' <-> path = EmptyString).
  { intros D' h' path value.
    destruct (add_eq D' path value h') as (oc & h1 & e & _ & _ & _ & E).
    unfold returns. rewrite E. split.
    - intros (a & h2 & H).
      destruct (String.eqb_spec (nth 0 (tokens path) EmptyString) EmptyString) as [H1|];
        cbn [negb] in H; [|discriminate H].
      destruct (Nat.eqb_spec (length (tokens path)) 1) as [H2|].
      + apply tokens_root. split; assumption.
      + destruct (String.eqb _ _); discriminate H.
    - intros ->. cbn. eauto. }
  split; [apply Hadd|]. split; [|split; [|split; [|split]]].
  - intros path.
    destruct (remove_eq D path h) as (oc & h1 & e & _ & _ & _ & E).
    unfold returns. rewrite E. split.
    + intros (a & h2 & H).
      destruct (String.eqb_spec (nth 0 (tokens path) EmptyString) EmptyString) as [H1|];
        cbn [negb] in H; [|discriminate H].
      destruct (length (tokens path) =? 1) eqn:H2.
      * left. apply tokens_root. apply Nat.eqb_eq in H2. split; assumption.
      * destruct (String.eqb_spec (lastToken (tokens path)) EmptyString) as [H3|].
        -- right. apply tokens_last_empty; assumption.
        -- destruct (String.eqb _ _); discriminate H.
    + intros [->|(P & HP & ->)]; [cbn; eauto|].
      destruct (tokens_snoc_rooted P EmptyString eq_refl HP) as (H1 & H2 & H3 & _).
      change (unescapeToken EmptyString) with EmptyString in H3.
      rewrite H1, H2, H3. cbn. eauto.
  - intros path value. split.
    + intros (a & h2 & H). unfold replace, bind in H.
      destruct (remove D path h) as [[removed|e] h1] eqn:E; [|discriminate H].
      apply (Hadd removed h1 path value). unfold returns. eauto.
    + intros ->.
      destruct (remove_eq D EmptyString h) as (oc & h1 & e & _ & _ & _ & E).
      cbn in E.
      destruct (add_eq (VRef (length h1)) EmptyString value (h1 ++ [CObj []]))
        as (oc' & h2 & e' & _ & _ & _ & E').
      cbn in E'.
      unfold returns, replace. erewrite bind_ok by exact E. eauto.
  - intros from path. split.
    + intros (a & h2 & H). unfold copy in H.
      destruct (String.eqb_spec from path) as [E|_]; [exact E|].
      destruct (evaluateM_pointer_first from D h) as (e & Ee & _).
      erewrite bind_err in H by exact Ee. discriminate H.
    + intros ->. unfold returns. rewrite copy_same. eauto.
  - intros from path (a & h2 & H).
    destruct (move_outcome D from path h) as (e & E & _). congruence.
  - intros path value (a & h2 & H).
    destruct (test_outcome D path value h) as (e & E & _). congruence.
Qed.

Lemma patch_operations_return_iff_witness :
  returns (remove (VRef 0) "/b/") initialHeap
  /\ ~ returns (add (VRef 0) "/b/newKey" (VNum 42%float)) initialHeap.
Proof.
  destruct (patch_operations_return_iff (VRef 0) initialHeap) as (Hadd & Hrem & _).
  split.
  - apply Hrem. right. exists "/b"%string. split; [right; eexists|]; reflexivity.
  - intros H. apply Hadd in H. discriminate H.
Defined.

(** * Further properties of the applicator *)

Lemma foldApply_app ops1 ops2 D h :
  foldApply (ops1 ++ ops2) D h
  = match foldApply ops1 D h with
    | (Ok D', h') => foldApply ops2 D' h'
    | (Err e, h') => (Err e, h')
    end.
Proof.
  revert D h. induction ops1 as [|op ops1 IH]; intros D h; simpl; [reflexivity|].
  destruct (apply D op h) as [[D'|e] h']; [apply IH|reflexivity].
Qed.

(** X24: patches compose: applying [ops1 ++ ops2] is applying [ops1] and
    then [ops2] to its result in the store it left; if [ops1] throws,
    [ops2] is not applied. *)
Theorem applyPatch_app :
  forall (D : JSValue) (ops1 ops2 : list Operation) (h : heap),
    applyPatch D (ops1 ++ ops2) None h
    = match applyPatch D ops1 None h with
      | (Ok D', h') => applyPatch D' ops2 None h'
      | (Err e, h') => (Err e, h')
      end.
Proof.
  intros D ops1 ops2 h.
  rewrite (proj1 (applyPatch_no_hooks D (ops1 ++ ops2) h)).
  rewrite (proj1 (applyPatch_no_hooks D ops1 h)).
  rewrite foldApply_app.
  destruct (foldApply ops1 D h) as [[D'|e] h']; [|reflexivity].
  symmetry. apply applyPatch_no_hooks.
Qed.

(** X25: an operation whose [op] tag is none of the six known ones has no
    effect wherever it stands in a patch: it may be dropped from the
    list. *)
Theorem applyPatch_unknown_operation :
  forall (D : JSValue) (ops1 ops2 : list Operation) (op : string) (h : heap),
    applyPatch D (ops1 ++ OpOther op :: ops2) None h
    = applyPatch D (ops1 ++ ops2) None h.
Proof.
  intros D ops1 ops2 op h.
  rewrite (proj1 (applyPatch_no_hooks D (ops1 ++ OpOther op :: ops2) h)).
  rewrite (proj1 (applyPatch_no_hooks D (ops1 ++ ops2) h)).
  rewrite !foldApply_app.
  destruct (foldApply ops1 D h) as [[D'|e] h']; reflexivity.
Qed.

Lemma forEach_app_err {A} (f : A -> M unit) xs1 x xs2 h h2 e h3 :
  forEach f xs1 h = (Ok tt, h2) ->
  f x h2 = (Err e, h3) ->
  forEach f (xs1 ++ x :: xs2) h = (Err e, h3).
Proof.
  revert h. induction xs1 as [|y xs1 IH]; intros h; simpl.
  - intros [= ->] Hx. unfold bind. rewrite Hx. reflexivity.
  - unfold bind. destruct (f y h) as [[[]|e'] h1]; [apply IH|discriminate].
Qed.

(** X26: the hooks.  If an operation throws no hook runs; otherwise the
    hooks run in list order on the final document and the operation list,
    their results are ignored and the final document is returned in the
    store they leave; the first hook that throws ends the call with its
    error and the later hooks do not run. *)
Theorem applyPatch_hooks :
  forall (D : JSValue) (ops : list Operation) (h : heap),
    (forall hooks e h1,
        applyPatch D ops None h = (Err e, h1) ->
        applyPatch D ops hooks h = (Err e, h1))
    /\ (forall hs r h1 h2,
           applyPatch D ops None h = (Ok r, h1) ->
           forEach (fun hook : Hook => hook r ops) hs h1 = (Ok tt, h2) ->
           applyPatch D ops (Some hs) h = (Ok r, h2))
    /\ (forall hs1 (hook : Hook) hs2 r h1 h2 e h3,
           applyPatch D ops None h = (Ok r, h1) ->
           forEach (fun hook : Hook => hook r ops) hs1 h1 = (Ok tt, h2) ->
           hook r ops h2 = (Err e, h3) ->
           applyPatch D ops (Some (hs1 ++ hook :: hs2)) h = (Err e, h3)).
Proof.
  intros D ops h.
  assert (Hnone : forall r h1, applyPatch D ops None h = (r, h1) ->
                               reduceM (fun object operation => apply object operation) ops D h
                               = (r, h1)).
  { intros r h1. rewrite (proj1 (applyPatch_no_hooks D ops h)).
    rewrite reduceM_apply_foldApply. tauto. }
  repeat split.
  - intros hooks e h1 H. apply Hnone in H. unfold applyPatch.
    erewrite bind_err by exact H. reflexivity.
  - intros hs r h1 h2 H Hhooks. apply Hnone in H. unfold applyPatch.
    erewrite bind_ok by exact H.
    destruct hs as [|hook hs].
    + simpl in Hhooks. injection Hhooks as <-. reflexivity.
    + cbn [length Nat.ltb Nat.leb]. erewrite bind_ok by exact Hhooks. reflexivity.
  - intros hs1 hook hs2 r h1 h2 e h3 H Hhooks Hhook. apply Hnone in H. unfold applyPatch.
    erewrite bind_ok by exact H.
    replace (0 <? length (hs1 ++ hook :: hs2)) with true
      by (symmetry; apply Nat.ltb_lt; rewrite length_app; simpl; lia).
    erewrite bind_err; [reflexivity|].
    eapply forEach_app_err; eauto.
Qed.

Lemma applyPatch_hooks_witness :
  applyPatch (VRef 0) [OpRemove ""]
    (Some [(fun _ _ => ret tt) : Hook; (fun _ _ => throw RangeError) : Hook;
           (fun _ _ => bind (alloc (CArr [])) (fun _ => ret tt)) : Hook])
    [CObj []]
  = (Err RangeError, [CObj []; CObj []; CObj []]).
Proof.
  apply (proj2 (proj2 (applyPatch_hooks (VRef 0) [OpRemove ""] [CObj []]))
           [(fun _ _ => ret tt) : Hook] ((fun _ _ => throw RangeError) : Hook)
           [(fun _ _ => bind (alloc (CArr [])) (fun _ => ret tt)) : Hook]
           (VRef 2) [CObj []; CObj []; CObj []] [CObj []; CObj []; CObj []]);
    reflexivity.
Defined.

Lemma reduceM_neverMutates {A B} (f : B -> A -> M B) xs :
  (forall b a, neverMutates (f b a)) -> forall init, neverMutates (reduceM f xs init).
Proof.
  intros Hf. induction xs as [|x xs IH]; intros init; simpl.
  - intros h. apply unchanged_refl.
  - apply bind_neverMutates; [apply Hf|exact IH].
Qed.

Lemma forEach_neverMutates {A} (f : A -> M unit) xs :
  Forall (fun x => neverMutates (f x)) xs -> neverMutates (forEach f xs).
Proof.
  induction 1 as [|x xs Hx _ IH]; simpl.
  - intros h. apply unchanged_refl.
  - apply bind_neverMutates; [exact Hx|intros _; exact IH].
Qed.

Lemma test_neverMutates object path value : neverMutates (test object path value).
Proof.
  unfold test.
  apply bind_neverMutates; [apply evaluateM_neverMutates|]. intros evaluateValue.
  apply bind_neverMutates; [intros h; apply unchanged_refl|]. intros equal.
  destruct (negb equal); intros h; apply unchanged_refl.
Qed.

Lemma apply_neverMutates object operation : neverMutates (apply object operation).
Proof.
  destruct operation; simpl.
  - apply add_neverMutates.
  - apply remove_neverMutates.
  - apply replace_neverMutates.
  - apply move_neverMutates.
  - apply copy_neverMutates.
  - apply test_neverMutates.
  - intros h. apply unchanged_refl.
Qed.

(** X27: a whole patch is copy-on-write: whatever the operations are and
    whether the call returns or throws, [applyPatch] leaves every array and
    object that existed before the call unchanged, provided the hooks (if
    any) do so themselves. *)
Theorem applyPatch_neverMutates :
  forall (D : JSValue) (ops : list Operation) (hooks : option (list Hook)),
    (forall hs, hooks = Some hs ->
                Forall (fun hook : Hook => forall r o, neverMutates (hook r o)) hs) ->
    neverMutates (applyPatch D ops hooks).
Proof.
  intros D ops hooks Hhooks. unfold applyPatch.
  apply bind_neverMutates.
  { apply reduceM_neverMutates. intros b a. apply apply_neverMutates. }
  intros result. apply bind_neverMutates.
  - destruct hooks as [hs|]; [|intros h; apply unchanged_refl].
    destruct (0 <? length hs); [|intros h; apply unchanged_refl].
    apply forEach_neverMutates.
    specialize (Hhooks hs eq_refl).
    eapply Forall_impl; [exact Hhooks|]. intros hook H. apply H.
  - intros _ h. apply unchanged_refl.
Qed.

Lemma applyPatch_neverMutates_witness :
  neverMutates (applyPatch (VRef 0)
                  [OpAdd "/baz" (VNum 0%float); OpRemove "/foo"; OpTest "/baz" (VNum 0%float)]
                  None).
Proof.
  apply applyPatch_neverMutates. intros hs H. discriminate H.
Defined.

(** * The walk through an Array *)

Lemma split_token_suffix tok Q :
  Str.contains "/" tok = false -> rooted Q ->
  Str.split "/" (String.append tok Q) = tok :: skipn 1 (Str.split "/" Q).
Proof.
  intros Htok [->|(rest & ->)].
  - rewrite string_append_nil_r. apply split_no_sep. exact Htok.
  - rewrite split_app_sep, (split_no_sep _ _ Htok). reflexivity.
Qed.

(** A pointer that goes on after [P]: the walk takes the step for the next
    token from the value [P] resolves to, and then walks the remaining
    tokens. *)
Lemma evaluate_through h D P tok Q acc :
  Str.contains "/" tok = false -> rooted Q ->
  evaluate h D (VStr P) = Ok acc ->
  let full := String.append P (String "/" (String.append tok Q)) in
  evaluate h D (VStr full)
  = bindR (evaluateStep h full acc (unescapeToken tok))
          (reduce (evaluateStep h full) (skipn 1 (tokens Q))).
Proof.
  intros Htok HQ Hacc full. subst full.
  rewrite evaluate_string in Hacc. rewrite evaluate_string. cbv zeta in Hacc |- *.
  rewrite split_app_sep, (split_token_suffix _ _ Htok HQ), map_app.
  destruct (negb (isObject h D)); [discriminate Hacc|].
  pose proof (split_nonempty "/" P) as Hne.
  destruct (Str.split "/" P) as [|x more]; [contradiction|].
  cbn [map app nth skipn] in Hacc |- *.
  destruct (negb _); [discriminate Hacc|].
  rewrite drop_0 in Hacc |- *. rewrite reduce_app.
  rewrite (reduce_evaluateStep_ok_pointer _ _ _ _ _ _ Hacc).
  unfold tokens. rewrite <- skipn_map. reflexivity.
Qed.

(** The step of the walk on an Array. *)
Lemma evaluateStep_array h p acc token elems :
  arrayOf h acc = Some elems ->
  evaluateStep h p acc token
  = if String.eqb token "-" then Err InvalidArrayReference
    else if negb (Str.isUnsignedInteger token) then Err (InvalidArrayIndex token)
    else if (N.of_nat (length elems) <=? Str.digitsValue token)%N
         then Err (ArrayIndexOutOfBounds (Str.parseInt token))
         else Ok (default VUndefined (elems !! N.to_nat (Str.digitsValue token))).
Proof.
  intros Harr. unfold evaluateStep, isArray, arrayLength, getIndex. rewrite Harr.
  destruct acc; try discriminate Harr. reflexivity.
Qed.

(** C6: when the walk reaches an Array, at any position of the pointer, the
    next reference token [-] fails with InvalidArrayReference, a token that
    is not an unsigned integer fails with InvalidArrayIndex, an index not
    below the length fails with ArrayIndexOutOfBounds (reporting the index
    as the double [parseInt] returns), and otherwise the walk goes on with
    the element at that index through the rest of the pointer, returning
    that element when the pointer ends there; [/b/d/1] in the sample
    document is 4. *)
Theorem evaluate_array_token :
  (forall (h : heap) (D : JSValue) (P tok Q : string) (acc : JSValue)
          (elems : list JSValue),
     Str.contains "/" tok = false ->
     rooted Q ->
     evaluate h D (VStr P) = Ok acc ->
     arrayOf h acc = Some elems ->
     let t := unescapeToken tok in
     let full := String.append P (String "/" (String.append tok Q)) in
     let result := evaluate h D (VStr full) in
     (t = "-"%string -> result = Err InvalidArrayReference)
     /\ (t <> "-"%string -> Str.isUnsignedInteger t = false ->
         result = Err (InvalidArrayIndex t))
     /\ (Str.isUnsignedInteger t = true ->
         (N.of_nat (length elems) <= Str.digitsValue t)%N ->
         result = Err (ArrayIndexOutOfBounds (Str.parseInt t)))
     /\ (Str.isUnsignedInteger t = true ->
         (Str.digitsValue t < N.of_nat (length elems))%N ->
         exists v, elems !! N.to_nat (Str.digitsValue t) = Some v
                   /\ result = reduce (evaluateStep h full) (skipn 1 (tokens Q)) v
                   /\ (Q = EmptyString -> result = Ok v)))
  /\ evaluate sampleHeap (VRef 0) (VStr "/b/d/1") = Ok (VNum 4%float).
Proof.
  split; [|reflexivity].
  intros h D P tok Q acc elems Htok HQ Hacc Harr t full result.
  subst result full. rewrite (evaluate_through _ _ _ _ _ _ Htok HQ Hacc). fold t.
  rewrite (evaluateStep_array _ _ _ _ _ Harr).
  repeat split.
  - intros ->. reflexivity.
  - intros Hne Hint. rewrite Hint. cbn [negb].
    destruct (String.eqb_spec t "-"); [contradiction|reflexivity].
  - intros Hint Hle. rewrite Hint. cbn [negb].
    destruct (String.eqb_spec t "-") as [E|_]; [rewrite E in Hint; discriminate|].
    apply N.leb_le in Hle. rewrite Hle. reflexivity.
  - intros Hint Hlt. rewrite Hint. cbn [negb].
    destruct (String.eqb_spec t "-") as [E|_]; [rewrite E in Hint; discriminate|].
    apply N.leb_gt in Hlt. rewrite Hlt.
    apply N.leb_gt in Hlt.
    destruct (lookup_lt_is_Some_2 elems (N.to_nat (Str.digitsValue t))) as [v Hv]; [lia|].
    exists v. rewrite Hv. cbn [default bindR].
    split; [reflexivity|]. split; [reflexivity|].
    intros ->. reflexivity.
Qed.

Lemma evaluate_array_token_witness :
  evaluate sampleHeap (VRef 0) (VStr "/b/d/1") = Ok (VNum 4%float)
  /\ evaluate nestedHeap (VRef 0) (VStr "/e/2/1") = Ok (VNum 7%float)
  /\ evaluate nestedHeap (VRef 0) (VStr "/e/-/1") = Err InvalidArrayReference
  /\ evaluate nestedHeap (VRef 0) (VStr "/e/x/1") = Err (InvalidArrayIndex "x")
  /\ evaluate nestedHeap (VRef 0) (VStr "/e/9007199254740993/1")
     = Err (ArrayIndexOutOfBounds 9007199254740992%float).
Proof.
  split; [|split; [|split; [|split]]].
  - destruct (proj1 evaluate_array_token sampleHeap (VRef 0) "/b/d"%string "1"%string
                EmptyString (VRef 2) [VNum 3%float; VNum 4%float]
                eq_refl (or_introl eq_refl) eq_refl eq_refl)
      as (_ & _ & _ & H).
    destruct (H eq_refl) as (v & Hv & _ & Hr); [reflexivity|].
    injection Hv as <-. exact (Hr eq_refl).
  - destruct (proj1 evaluate_array_token nestedHeap (VRef 0) "/e"%string "2"%string
                "/1"%string (VRef 3) [VNum 5%float; VRef 4; VRef 5]
                eq_refl (or_intror (ex_intro _ "1"%string eq_refl)) eq_refl eq_refl)
      as (_ & _ & _ & H).
    destruct (H eq_refl) as (v & Hv & Hr & _); [reflexivity|].
    injection Hv as <-. exact Hr.
  - exact (proj1 (proj1 evaluate_array_token nestedHeap (VRef 0) "/e"%string "-"%string
                    "/1"%string (VRef 3) [VNum 5%float; VRef 4; VRef 5]
                    eq_refl (or_intror (ex_intro _ "1"%string eq_refl)) eq_refl eq_refl)
             eq_refl).
  - apply (proj1 (proj2 (proj1 evaluate_array_token nestedHeap (VRef 0) "/e"%string
                           "x"%string "/1"%string (VRef 3) [VNum 5%float; VRef 4; VRef 5]
                           eq_refl (or_intror (ex_intro _ "1"%string eq_refl))
                           eq_refl eq_refl))); [discriminate|reflexivity].
  - apply (proj1 (proj2 (proj2 (proj1 evaluate_array_token nestedHeap (VRef 0) "/e"%string
                           "9007199254740993"%string "/1"%string (VRef 3)
                           [VNum 5%float; VRef 4; VRef 5]
                           eq_refl (or_intror (ex_intro _ "1"%string eq_refl))
                           eq_refl eq_refl)))); [reflexivity|].
    vm_compute. discriminate.
Defined.
